(** * VFX Market Pulse backend: ingestion, classification and merge

    A shallow embedding of [src/scrapers/backstage.js] and of the scrape
    handler of [src/server.js], with the properties of the pipeline proved
    over it.

    Conventions of the embedding.
    - A JavaScript string is a [string]: a sequence of code units below 256
      (the Latin-1 range).
    - A JavaScript number is a [JS.number]: a binary64 value, the finite ones
      carried by their exact rational value; arithmetic rounds to nearest,
      ties to even, as IEEE 754 prescribes.  The two zeros are identified:
      the code only multiplies and compares numbers, and both operations
      agree on them.
    - A value that may be [undefined] is an [option].
    - A JavaScript object used as a record with optional fields is a
      [gmap string _].  The object [sourcesCache], whose property names come
      from requests, is modelled with its prototype: the name [__proto__]
      reads and replaces the prototype, and a name without a property of
      its own reads what the prototype has under it.
    - Code that may throw returns a [JS.result]. *)

From Stdlib Require Import ZArith QArith Qround Qpower Ascii String List Bool Lia Lqa.
From stdpp Require Import base gmap strings list fin_maps pretty.

Close Scope Q_scope.

(* ===================================================================== *)
(** * The JavaScript primitives the code relies on *)
(* ===================================================================== *)

Module JS.

(** ** Exceptions *)

Inductive exn :=
  | TypeError (msg : string)
  | Error (msg : string).

Definition message (e : exn) : string :=
  match e with TypeError m => m | Error m => m end.

Inductive result (A : Type) :=
  | Ok (a : A)
  | Throw (e : exn).
Arguments Ok {A} a.
Arguments Throw {A} e.

#[global] Instance result_ret : MRet result := fun A a => Ok a.

#[global] Instance result_bind : MBind result := fun A B k r =>
  match r with
  | Ok a => k a
  | Throw e => Throw e
  end.

(** ** Numbers *)

Inductive number :=
  | NaN
  | Inf (negative : bool)
  | Fin (q : Q).

Definition two : Q := 2%Q.

(** [ilog2 q] is the binade of a positive [q]: the [e] with
    [2^e <= q < 2^(e+1)]. *)
Definition ilog2 (q : Q) : Z :=
  let l := (Z.log2 (Qnum q) - Z.log2 (Zpos (Qden q)))%Z in
  if Qle_bool (two ^ l) q then l else (l - 1)%Z.

(** Nearest integer, ties to even. *)
Definition round_even (q : Q) : Z :=
  let k := Qfloor q in
  match (q - inject_Z k ?= 1 # 2)%Q with
  | Lt => k
  | Gt => (k + 1)%Z
  | Eq => if Z.even k then k else (k + 1)%Z
  end.

(** Rounding of a positive rational to binary64: 53 bits of precision,
    least exponent -1022 (below it the spacing stays [2^-1074]), overflow
    to infinity from [2^1024] on. *)
Definition round64_pos (q : Q) : number :=
  let e := Z.max (ilog2 q) (-1022) in
  let ulp := (two ^ (e - 52))%Q in
  let r := (inject_Z (round_even (q / ulp)) * ulp)%Q in
  if Qle_bool (two ^ 1024) r then Inf false else Fin (Qred r).

Definition neg (x : number) : number :=
  match x with
  | NaN => NaN
  | Inf s => Inf (negb s)
  | Fin q => Fin (Qred (- q))
  end.

Definition round64 (q : Q) : number :=
  match (q ?= 0)%Q with
  | Eq => Fin 0
  | Gt => round64_pos q
  | Lt => neg (round64_pos (- q))
  end.

(** [x * y] *)
Definition mul (x y : number) : number :=
  match x, y with
  | NaN, _ | _, NaN => NaN
  | Inf s, Inf t => Inf (xorb s t)
  | Inf s, Fin q | Fin q, Inf s =>
      match (q ?= 0)%Q with
      | Eq => NaN
      | Gt => Inf s
      | Lt => Inf (negb s)
      end
  | Fin p, Fin q => round64 (p * q)
  end.

(** [x >= y] *)
Definition ge (x y : number) : bool :=
  match x, y with
  | NaN, _ | _, NaN => false
  | Inf false, _ => true
  | Inf true, Inf true => true
  | Inf true, _ => false
  | Fin _, Inf s => s
  | Fin p, Fin q => Qle_bool q p
  end.

(** ** Strings *)

Definition code (c : ascii) : nat := nat_of_ascii c.

(** White space and line terminators below 256: TAB, LF, VT, FF, CR, SP
    and NBSP. *)
Definition is_space (c : ascii) : bool :=
  let n := code c in
  (((9 <=? n) && (n <=? 13)) || (n =? 32) || (n =? 160))%nat.

Definition is_digit (c : ascii) : bool :=
  let n := code c in ((48 <=? n) && (n <=? 57))%nat.

Definition digit_value (c : ascii) : Z := (Z.of_nat (code c) - 48)%Z.

(** [s.startsWith(t)] *)
Fixpoint starts_with (s t : string) {struct t} : bool :=
  match t, s with
  | EmptyString, _ => true
  | String _ _, EmptyString => false
  | String b t', String a s' => Ascii.eqb a b && starts_with s' t'
  end.

Fixpoint trim_start (s : string) : string :=
  match s with
  | String c r => if is_space c then trim_start r else s
  | EmptyString => s
  end.

(** The longest prefix of decimal digits, and what follows it. *)
Fixpoint span_digits (s : string) : string * string :=
  match s with
  | String c r =>
      if is_digit c
      then let (d, t) := span_digits r in (String c d, t)
      else (EmptyString, s)
  | EmptyString => (EmptyString, EmptyString)
  end.

(** The value of a string of decimal digits, most significant first. *)
Fixpoint digits_value (acc : Z) (s : string) : Z :=
  match s with
  | String c r => digits_value (10 * acc + digit_value c)%Z r
  | EmptyString => acc
  end.

(** An optional sign at the head of [s]: whether it is a minus, and what
    follows. *)
Definition take_sign (s : string) : bool * string :=
  match s with
  | String c r =>
      if Ascii.eqb c "+" then (false, r)
      else if Ascii.eqb c "-" then (true, r)
      else (false, s)
  | EmptyString => (false, s)
  end.

(** The exponent part [e|E [+|-] digits] at the head of [s], or 0 when
    there is none. *)
Definition exponent_part (s : string) : Z :=
  match s with
  | String c r =>
      if (Ascii.eqb c "e" || Ascii.eqb c "E")%bool then
        let (sg, r') := take_sign r in
        let (ds, _) := span_digits r' in
        match ds with
        | EmptyString => 0%Z
        | _ => if sg then (- digits_value 0 ds)%Z else digits_value 0 ds
        end
      else 0%Z
  | EmptyString => 0%Z
  end.

(** [parseFloat(s)]: skip leading white space, read the longest prefix
    that is a [StrDecimalLiteral] and return its value, or [NaN] when there
    is no such prefix. *)
Definition parseFloat (s : string) : number :=
  let (sg, t) := take_sign (trim_start s) in
  let apply_sign (x : number) := if sg then neg x else x in
  if starts_with t "Infinity" then Inf sg
  else
    let (ip, r1) := span_digits t in
    let (fp, r2) :=
      match r1 with
      | String c r =>
          if Ascii.eqb c "." then span_digits r else (EmptyString, r1)
      | EmptyString => (EmptyString, r1)
      end in
    match ip +:+ fp with
    | EmptyString => NaN
    | ds =>
        let ex := (exponent_part r2 - Z.of_nat (String.length fp))%Z in
        apply_sign (round64 (inject_Z (digits_value 0 ds) * inject_Z 10 ^ ex))
    end.

(** [s.replace(/[...]/g, '')]: drop every character of the class. *)
Fixpoint remove_chars (drop : ascii -> bool) (s : string) : string :=
  match s with
  | String c r =>
      if drop c then remove_chars drop r else String c (remove_chars drop r)
  | EmptyString => EmptyString
  end.

(** [s.includes(t)] *)
Fixpoint includes (s t : string) : bool :=
  starts_with s t ||
  match s with
  | String _ r => includes r t
  | EmptyString => false
  end.

(** [s.toLowerCase()] on code units below 256: A-Z and the capital
    letters U+00C0-U+00DE (U+00D7, the multiplication sign, is not one)
    move up by 32. *)
Definition lower_char (c : ascii) : ascii :=
  let n := code c in
  if (((65 <=? n) && (n <=? 90)) ||
      ((192 <=? n) && (n <=? 222) && negb (n =? 215)))%nat
  then ascii_of_nat (n + 32) else c.

Fixpoint toLowerCase (s : string) : string :=
  match s with
  | String c r => String (lower_char c) (toLowerCase r)
  | EmptyString => EmptyString
  end.

(** The longest prefix of characters of a class, and what follows it. *)
Fixpoint span_chars (f : ascii -> bool) (s : string) : string * string :=
  match s with
  | String c r =>
      if f c
      then let (d, t) := span_chars f r in (String c d, t)
      else (EmptyString, s)
  | EmptyString => (EmptyString, EmptyString)
  end.

(** [s.match(re)] for a pattern without the [g] flag: the match at the
    leftmost position where [here], the pattern anchored at the head of
    what is left, succeeds. *)
Fixpoint first_match {A} (here : string -> option A) (s : string)
    : option A :=
  match here s with
  | Some m => Some m
  | None =>
      match s with
      | String _ r => first_match here r
      | EmptyString => None
      end
  end.

End JS.

Import JS.


(* ===================================================================== *)
(** * scrapers/backstage.js *)
(* ===================================================================== *)

Module Backstage.

Inductive VfxNeeds := Extreme | High | Medium | Low.

Inductive Tier := tier1 | tier2 | tier3 | tier4.

(** The string a level is rendered as. *)
Definition needs_text (v : VfxNeeds) : string :=
  match v with
  | Extreme => "Extreme"
  | High => "High"
  | Medium => "Medium"
  | Low => "Low"
  end.

Definition extremeKeywords : list string :=
  ["extensive vfx"; "heavy vfx"; "full cgi"; "green screen"; "500+ shots";
   "creature work"].

Definition highKeywords : list string :=
  ["vfx supervisor"; "vfx heavy"; "visual effects"; "cgi"; "compositing";
   "200+ shots"].

Definition mediumKeywords : list string :=
  ["vfx"; "visual effects"; "post production"; "effects"].

(** [keywords.some(kw => text.includes(kw))] *)
Definition some_included (keywords : list string) (text : string) : bool :=
  existsb (fun kw => includes text kw) keywords.

(** What [description.toLowerCase()] throws when there is no description. *)
Definition missing_description : exn :=
  TypeError "Cannot read properties of undefined (reading 'toLowerCase')".

(** [classifyVFXNeeds(description, budget)].  An absent description has no
    [toLowerCase] method: the call throws a [TypeError]. *)
Definition classifyVFXNeeds (description budget : option string)
    : result VfxNeeds :=
  match description with
  | None => Throw missing_description
  | Some d =>
      let text := toLowerCase d in
      if some_included extremeKeywords text then Ok Extreme
      else if some_included highKeywords text then Ok High
      else if some_included mediumKeywords text then Ok Medium
      else Ok Low
  end.

(** The character class [[\d,]]. *)
Definition digit_or_comma (c : ascii) : bool :=
  (is_digit c || Ascii.eqb c ",")%bool.

(** The character class [[KMk]]. *)
Definition K_M_k (c : ascii) : bool :=
  (Ascii.eqb c "K" || Ascii.eqb c "M" || Ascii.eqb c "k")%bool.

(** The pattern [\$[\d,]+[KMk]?] at the head of [s].  Both quantifiers are
    greedy and what follows them never fails, so the match, when there is
    one, takes the whole run of digits and commas and the suffix letter if
    it is there. *)
Definition budget_here (s : string) : option string :=
  match s with
  | String c r =>
      if Ascii.eqb c "$" then
        let (run, rest) := span_chars digit_or_comma r in
        match run with
        | EmptyString => None
        | _ =>
            Some ("$" +:+ run +:+
                  match rest with
                  | String d _ => if K_M_k d then String d "" else ""
                  | EmptyString => ""
                  end)
        end
      else None
  | EmptyString => None
  end.

(** [k?] under the [i] flag: one [k] or [K] is skipped when it is there. *)
Definition skip_k (s : string) : string :=
  match s with
  | String c r => if (Ascii.eqb c "k" || Ascii.eqb c "K")%bool then r else s
  | EmptyString => s
  end.

(** The pattern [(\d+)k?\s*-\s*(\d+)k?] with the [i] flag at the head of
    [s]: its two groups.  Giving back a digit, the [k] or a white space to
    what follows can never produce the hyphen or a digit where the greedy
    reading found none, so the greedy reading decides. *)
Definition range_here (s : string) : option (string * string) :=
  let (lo, r) := span_digits s in
  match lo with
  | EmptyString => None
  | _ =>
      match trim_start (skip_k r) with
      | String c r' =>
          if Ascii.eqb c "-" then
            let (hi, _) := span_digits (trim_start r') in
            match hi with
            | EmptyString => None
            | _ => Some (lo, hi)
            end
          else None
      | EmptyString => None
      end
  end.

(** [extractBudget(text)] *)
Definition extractBudget (text : string) : string :=
  match first_match budget_here text with
  | Some budgetMatch => budgetMatch
  | None =>
      match first_match range_here text with
      | Some (lo, hi) => "$" +:+ lo +:+ "K-" +:+ hi +:+ "K"
      | None => "TBD"
      end
  end.

(** The character class [[$,K]]. *)
Definition dollar_comma_K (c : ascii) : bool :=
  (Ascii.eqb c "$" || Ascii.eqb c "," || Ascii.eqb c "K")%bool.

(** The constant [amount] of [determineTier], for a budget that passed the
    first test. *)
Definition amount (budget : string) : number :=
  mul (parseFloat (remove_chars dollar_comma_K budget))
      (if includes budget "M" then Fin 1000 else Fin 1).

(** [determineTier(budget)].  [!budget] holds of an absent budget and of
    the empty string. *)
Definition determineTier (budget : option string) : Tier :=
  match budget with
  | None => tier3
  | Some b =>
      if (String.eqb b "" || String.eqb b "TBD")%bool then tier3
      else
        let amount := amount b in
        if ge amount (Fin 10000) then tier1
        else if ge amount (Fin 1000) then tier2
        else if ge amount (Fin 100) then tier3
        else tier4
  end.

(** What the clock and the random generator hand out during one run of
    [scrape]: the time at which listing [i] of the mock data is built, and
    the temporary id and the time at which project [i] is built. *)
Record Env := {
  posted_at : nat -> string;
  temp_id : nat -> number;
  scraped_at : nat -> string
}.

(** A raw listing; a field the listing lacks reads as [undefined]. *)
Record Listing := {
  l_title : option string;
  l_description : option string;
  l_budget : option string;
  l_location : option string;
  l_stage : option string;
  l_company : option string;
  l_postedDate : option string
}.

Record Contact := {
  name : string;
  role : string;
  email : string
}.

Record Project := {
  id : number;
  title : option string;
  tier : Tier;
  budget : option string;
  vfxNeeds : VfxNeeds;
  vfxNeedsSource : string;
  stage : option string;
  source : string;
  company : option string;
  description : option string;
  timeline : string;
  location : option string;
  vfxBudget : string;
  shotCount : string;
  contacts : list Contact;
  crossSourceData : gmap string (option string);
  scrapedAt : string;
  postedDate : option string
}.

Definition mockData (env : Env) : list Listing :=
  [ {| l_title := Some "Sci-Fi Feature Film - VFX Heavy";
       l_description := Some "Looking for VFX house for extensive VFX work including creature design, environments, and 500+ shots";
       l_budget := Some "$15M";
       l_location := Some "Los Angeles, CA";
       l_stage := Some "Pre-Production";
       l_company := Some "Independent Studio";
       l_postedDate := Some (posted_at env 0) |};
    {| l_title := Some "Horror Short Film";
       l_description := Some "Need VFX for creature effects and environmental enhancements, approximately 50 shots";
       l_budget := Some "$250K";
       l_location := Some "New York, NY";
       l_stage := Some "Development";
       l_company := Some "Indie Productions";
       l_postedDate := Some (posted_at env 1) |};
    {| l_title := Some "Commercial - Tech Brand";
       l_description := Some "VFX needed for product visualization and motion graphics";
       l_budget := Some "$80K";
       l_location := Some "Remote";
       l_stage := Some "Production";
       l_company := Some "Ad Agency";
       l_postedDate := Some (posted_at env 2) |} ].

(** The body of the loop over the listings: classify, build the project. *)
Definition process_item (env : Env) (i : nat) (item : Listing)
    : result Project :=
  vfxNeeds ← classifyVFXNeeds (l_description item) (l_budget item);
  let tier := determineTier (l_budget item) in
  mret {|
    id := temp_id env i;
    title := l_title item;
    tier := tier;
    budget := l_budget item;
    vfxNeeds := vfxNeeds;
    vfxNeedsSource :=
      "Backstage posting: " +:+ needs_text vfxNeeds +:+
      " needs based on project description and scope";
    stage := l_stage item;
    source := "Backstage";
    company := l_company item;
    description := l_description item;
    timeline := "Contact for details";
    location := l_location item;
    vfxBudget := "TBD";
    shotCount := "TBD";
    contacts :=
      [ {| name := "Contact via Backstage";
           role := "Producer";
           email := "Apply through platform" |} ];
    crossSourceData := {[ "backstage" := l_description item ]};
    scrapedAt := scraped_at env i;
    postedDate := l_postedDate item
  |}.

(** [for (const item of items) { ...; projects.push(project); }], entered
    at listing [i] with the projects pushed so far. *)
Fixpoint process_listings (env : Env) (i : nat) (items : list Listing)
    (projects : list Project) : result (list Project) :=
  match items with
  | [] => Ok projects
  | item :: rest =>
      project ← process_item env i item;
      process_listings env (S i) rest (projects ++ [project])
  end.

(** [try { ... } catch (error) { console.error(...); throw error; }] *)
Definition log_and_rethrow {A} (r : result A) : result A :=
  match r with
  | Ok a => Ok a
  | Throw error => Throw error
  end.

(** The body of [scrape] over any sequence of listings. *)
Definition scrape_listings (env : Env) (items : list Listing)
    : result (list Project) :=
  log_and_rethrow (process_listings env 0 items []).

Definition scrape (env : Env) : result (list Project) :=
  scrape_listings env (mockData env).

End Backstage.

Import Backstage.

(* ===================================================================== *)
(** * server.js *)
(* ===================================================================== *)

Module Server.

(** The values stored in a source's status record. *)
Inductive value :=
  | VNull
  | VStr (s : string)
  | VNum (n : nat).

(** The server's two caches.  [sourcesCache] holds the own properties of
    the object of that name; [sourcesProto] is the record that object has as
    its prototype once an assignment to the name [__proto__] has replaced
    it, and [None] as long as the prototype is [Object.prototype]. *)
Record State := {
  projectsCache : list Project;
  sourcesCache : gmap string (gmap string value);
  sourcesProto : option (gmap string value)
}.

Definition idle_status : gmap string value :=
  {[ "lastScrape" := VNull; "projectCount" := VNum 0; "status" := VStr "idle" ]}.

Definition initial_state : State := {|
  projectsCache := [];
  sourcesCache :=
    {[ "vitrina" := idle_status; "backstage" := idle_status;
       "mandy" := idle_status; "productionWeekly" := idle_status ]};
  sourcesProto := None
|}.

Definition getProjects (st : State) : list Project := projectsCache st.

(** Writing the file is attempted and its failure swallowed: the cache is
    the state. *)
Definition saveProjects (projects : list Project) (st : State) : State :=
  {| projectsCache := projects;
     sourcesCache := sourcesCache st;
     sourcesProto := sourcesProto st |}.

(** What [sourcesCache[sourceName]] evaluates to: a status record, a value
    found as a field of the prototype, or something with no enumerable
    field of its own ([undefined], or a member of [Object.prototype]). *)
Inductive Read :=
  | ReadRecord (record : gmap string value)
  | ReadValue (v : value)
  | ReadNothing.

(** The property read.  An own property is read as it is.  Otherwise the
    prototype is asked: a field of a replaced prototype is found before
    anything else; the name [__proto__] then reaches the accessor of
    [Object.prototype], which gives the prototype itself; any other name
    gives [undefined] or a method of [Object.prototype]. *)
Definition read_source (sourceName : string) (st : State) : Read :=
  match sourcesCache st !! sourceName with
  | Some record => ReadRecord record
  | None =>
      match sourcesProto st with
      | Some proto =>
          match proto !! sourceName with
          | Some v => ReadValue v
          | None =>
              if String.eqb sourceName "__proto__" then ReadRecord proto
              else ReadNothing
          end
      | None => ReadNothing
      end
  end.

(** The characters of a string under their indices, from index [i] on. *)
Fixpoint chars_from (i : nat) (s : string) : gmap string value :=
  match s with
  | String c r => <[ pretty i := VStr (String c "") ]> (chars_from (S i) r)
  | EmptyString => ∅
  end.

(** [{ ...x }]: the own enumerable fields of what was read.  A string
    spreads into its characters; a number, [null], [undefined] and the
    members of [Object.prototype] contribute nothing. *)
Definition spread (x : Read) : gmap string value :=
  match x with
  | ReadRecord record => record
  | ReadValue (VStr s) => chars_from 0 s
  | ReadValue _ => ∅
  | ReadNothing => ∅
  end.

Definition lacks {A} (m : gmap string A) (key : string) : bool :=
  match m !! key with
  | Some _ => false
  | None => true
  end.

(** Whether the assignment [sourcesCache[sourceName] = ...] ends in the
    [__proto__] setter of [Object.prototype]: the name is [__proto__] and
    neither the object nor a replaced prototype has a field of that name. *)
Definition sets_prototype (sourceName : string) (st : State) : bool :=
  String.eqb sourceName "__proto__" &&
  lacks (sourcesCache st) sourceName &&
  match sourcesProto st with
  | Some proto => lacks proto sourceName
  | None => true
  end.

(** [sourcesCache[sourceName] = { ...sourcesCache[sourceName], ...updates }].
    The assignment makes or replaces an own property, except under the name
    [__proto__], where the setter makes the new record the prototype. *)
Definition updateSourceStatus (sourceName : string)
    (updates : gmap string value) (st : State) : State :=
  let record := updates ∪ spread (read_source sourceName st) in
  if sets_prototype sourceName st then
    {| projectsCache := projectsCache st;
       sourcesCache := sourcesCache st;
       sourcesProto := Some record |}
  else
    {| projectsCache := projectsCache st;
       sourcesCache := <[ sourceName := record ]> (sourcesCache st);
       sourcesProto := sourcesProto st |}.

(** [existingProjects.find(p => p.title === newProject.title)], as the
    truth value the code tests. *)
Definition exists_in (existingProjects : list Project) (newProject : Project)
    : bool :=
  existsb (fun p => bool_decide (title p = title newProject)) existingProjects.

(** The merge loop: [mergedProjects] starts as a copy of
    [existingProjects]; each new project is pushed unless its title is found
    in [existingProjects]. *)
Definition merge (existingProjects newProjects : list Project)
    : list Project :=
  fold_left
    (fun mergedProjects newProject =>
       if negb (exists_in existingProjects newProject)
       then mergedProjects ++ [newProject]
       else mergedProjects)
    newProjects existingProjects.

Inductive Response :=
  | Json200 (success : bool) (projectsAdded totalProjects : nat)
      (source : string)
  | Json500 (error : string).

(** The handler of [POST /api/scrape/:source].  [now] is the time read at
    the start; [scraped] is what loading the source's scraper and awaiting
    its [scrape()] gives. *)
Definition scrape_handler (now sourceName : string)
    (scraped : result (list Project)) (st : State) : State * Response :=
  let st :=
    updateSourceStatus sourceName
      {[ "status" := VStr "scraping"; "lastScrape" := VStr now ]} st in
  match scraped with
  | Ok newProjects =>
      let existingProjects := getProjects st in
      let mergedProjects := merge existingProjects newProjects in
      let st := saveProjects mergedProjects st in
      let st :=
        updateSourceStatus sourceName
          {[ "status" := VStr "active";
             "projectCount" := VNum (length newProjects) ]} st in
      (st, Json200 true (length newProjects) (length mergedProjects)
             sourceName)
  | Throw error =>
      let st :=
        updateSourceStatus sourceName {[ "status" := VStr "error" ]} st in
      (st, Json500 (message error))
  end.

(** The string a tier is stored as. *)
Definition tier_text (t : Tier) : string :=
  match t with
  | tier1 => "tier1"
  | tier2 => "tier2"
  | tier3 => "tier3"
  | tier4 => "tier4"
  end.

(** [projects.filter(p => p.tier === tier)], the answer of
    [GET /api/projects/tier/:tier]. *)
Definition projects_by_tier (tier_param : string) (st : State)
    : list Project :=
  List.filter (fun p => String.eqb (tier_text (tier p)) tier_param)
    (getProjects st).

(** [projects.filter(p => p.vfxNeeds === level).length] *)
Definition count_needs (level : string) (projects : list Project) : nat :=
  length (List.filter (fun p => String.eqb (needs_text (vfxNeeds p)) level)
            projects).

Record TierCounts := {
  n_tier1 : nat;
  n_tier2 : nat;
  n_tier3 : nat;
  n_tier4 : nat
}.

Record NeedsCounts := {
  n_extreme : nat;
  n_high : nat;
  n_medium : nat;
  n_low : nat
}.

Record Stats := {
  s_totalProjects : nat;
  s_byTier : TierCounts;
  s_byVFXNeeds : NeedsCounts;
  s_sources : gmap string (gmap string value);
  s_lastUpdated : string
}.

(** The answer of [GET /api/stats], read at time [now]. *)
Definition get_stats (now : string) (st : State) : Stats :=
  let projects := getProjects st in
  {| s_totalProjects := length projects;
     s_byTier :=
       {| n_tier1 := length (projects_by_tier "tier1" st);
          n_tier2 := length (projects_by_tier "tier2" st);
          n_tier3 := length (projects_by_tier "tier3" st);
          n_tier4 := length (projects_by_tier "tier4" st) |};
     s_byVFXNeeds :=
       {| n_extreme := count_needs "Extreme" projects;
          n_high := count_needs "High" projects;
          n_medium := count_needs "Medium" projects;
          n_low := count_needs "Low" projects |};
     s_sources := sourcesCache st;
     s_lastUpdated := now |}.

End Server.

Import Server.


(* ===================================================================== *)
(** * Vocabulary of the statements *)
(* ===================================================================== *)

(** The titles of a catalog. *)
Definition titles (C : list Project) : list (option string) := map title C.

(** The new projects the loop pushes: those whose title is not found in
    the existing catalog. *)
Definition appended (C P : list Project) : list Project :=
  List.filter (fun p => negb (exists_in C p)) P.

(** A source's status record as the code reads it, the fields of
    [{ ...sourcesCache[sourceName] }]: empty when the source has none. *)
Definition status_of (sourceName : string) (st : State) : gmap string value :=
  spread (read_source sourceName st).

(** The listing [item] with its budget replaced by [b]. *)
Definition with_budget (b : option string) (item : Listing) : Listing := {|
  l_title := l_title item;
  l_description := l_description item;
  l_budget := b;
  l_location := l_location item;
  l_stage := l_stage item;
  l_company := l_company item;
  l_postedDate := l_postedDate item
|}.

(** The level and the rationale of the project built from a listing, or
    what building it throws. *)
Definition needs_of (r : result Project) : result (VfxNeeds * string) :=
  p ← r; mret (vfxNeeds p, vfxNeedsSource p).

(** [t] is a binary64 value: a multiple of the spacing of its binade. *)
Definition representable (t : Q) : Prop :=
  let ulp := (two ^ (Z.max (ilog2 t) (-1022) - 52))%Q in
  (inject_Z (Qfloor (t / ulp)) == t / ulp)%Q.

Fixpoint all_chars (f : ascii -> bool) (s : string) : bool :=
  match s with
  | String c r => f c && all_chars f r
  | EmptyString => true
  end.

Fixpoint any_char (f : ascii -> bool) (s : string) : bool :=
  match s with
  | String c r => f c || any_char f r
  | EmptyString => false
  end.

Definition is_digit_or_comma (c : ascii) : bool :=
  is_digit c || Ascii.eqb c ",".

(** An amount as the budget pattern writes it: digits, with commas
    anywhere between them, and at least one digit. *)
Definition is_amount (a : string) : bool :=
  all_chars is_digit_or_comma a && any_char is_digit a.

Definition keep_digits (a : string) : string :=
  remove_chars (fun c => negb (is_digit c)) a.

(** The number an amount spells, its commas skipped. *)
Definition amount_value (a : string) : Z := digits_value 0 (keep_digits a).

Inductive Suffix := K | M.

Definition suffix_text (sfx : Suffix) : string :=
  match sfx with K => "K" | M => "M" end.

(** What one unit of the amount is worth, in thousands. *)
Definition factor (sfx : Suffix) : Z :=
  match sfx with K => 1 | M => 1000 end.

(** The budget string [$<amount>K] or [$<amount>M]. *)
Definition budget_text (a : string) (sfx : Suffix) : string :=
  "$" +:+ a +:+ suffix_text sfx.

(** The budget the string stands for, in thousands. *)
Definition thousands (a : string) (sfx : Suffix) : Z :=
  (amount_value a * factor sfx)%Z.

(** The tier of a budget of [k] thousands as the specification gives it:
    tier1 from $10M, tier2 from $1M, tier3 from $100K, tier4 below. *)
Definition tier_at (k : Z) : Tier :=
  if (10000 <=? k)%Z then tier1
  else if (1000 <=? k)%Z then tier2
  else if (100 <=? k)%Z then tier3
  else tier4.

(** Tiers in increasing order of budget. *)
Definition rank (t : Tier) : nat :=
  match t with tier4 => 0 | tier3 => 1 | tier2 => 2 | tier1 => 3 end.

(** An amount cut at its first decimal point: what stands before the
    point, and the fraction when there is a point. *)
Fixpoint split_point (a : string) : string * option string :=
  match a with
  | String c r =>
      if Ascii.eqb c "." then (EmptyString, Some r)
      else let (w, f) := split_point r in (String c w, f)
  | EmptyString => (EmptyString, None)
  end.

Definition whole_part (a : string) : string := (split_point a).1.

Definition fraction (a : string) : string := default "" (split_point a).2.

(** A decimal amount: digits with commas anywhere between them, then
    possibly a point and the digits of a fraction, with a digit on one
    side at least. *)
Definition is_decimal (a : string) : bool :=
  all_chars is_digit_or_comma (whole_part a)
  && all_chars is_digit (fraction a)
  && any_char is_digit a.

(** The number a decimal amount spells, exactly. *)
Definition decimal_value (a : string) : Q :=
  (inject_Z (digits_value 0 (keep_digits (whole_part a) +:+ fraction a))
   * inject_Z 10 ^ (0 - Z.of_nat (String.length (fraction a))))%Q.

(** The tier of a budget of [k] thousands as the specification gives it,
    for an amount that need not be whole. *)
Definition tier_at_Q (k : Q) : Tier :=
  if Qle_bool 10000 k then tier1
  else if Qle_bool 1000 k then tier2
  else if Qle_bool 100 k then tier3
  else tier4.

(** A budget raised by the most that the two roundings of [determineTier]
    can add to it: the amount is rounded to binary64 when it is read and
    again after the multiplication, each time by half a unit in the last
    of 53 bits at most. *)
Definition twice_rounded (k : Q) : Q :=
  (k * (1 + two ^ (-53)) * (1 + two ^ (-53)))%Q.

(** The tier [determineTier] gives an amount. *)
Definition tier_of_number (x : number) : Tier :=
  if ge x (Fin 10000) then tier1
  else if ge x (Fin 1000) then tier2
  else if ge x (Fin 100) then tier3
  else tier4.

(** The nearest multiple of the spacing of its binade, for a positive
    rational: the value [round64_pos] gives it short of overflow. *)
Definition rounded (q : Q) : Q :=
  let e := Z.max (ilog2 q) (-1022) in
  let ulp := (two ^ (e - 52))%Q in
  (inject_Z (round_even (q / ulp)) * ulp)%Q.

(** Whether a budget without a digit reads as positive infinity: stripped
    of [$], commas and [K] and of leading white space, it starts with
    [Infinity] or [+Infinity]. *)
Definition reads_infinity (b : string) : bool :=
  let st := take_sign (trim_start (remove_chars dollar_comma_K b)) in
  negb st.1 && starts_with st.2 "Infinity".

(** Levels in increasing order of workload. *)
Definition needs_rank (v : VfxNeeds) : nat :=
  match v with Low => 0 | Medium => 1 | High => 2 | Extreme => 3 end.

(** The keywords that no other keyword contains. *)
Definition core_keywords : list string :=
  ["vfx"; "cgi"; "green screen"; "500+ shots"; "creature work";
   "compositing"; "200+ shots"; "post production"; "effects"].

(** What may follow the digits of a number without being read as part of
    it: nothing, or a character that is not a digit, a point or an
    exponent mark. *)
Definition ends_number (t : string) : bool :=
  match t with
  | String c _ =>
      negb (is_digit c || Ascii.eqb c "." || Ascii.eqb c "e" ||
            Ascii.eqb c "E")
  | EmptyString => true
  end.

(** What may follow a budget without a suffix letter: nothing, or a
    character that is not a digit, a comma or one of [K], [M], [k]. *)
Definition ends_budget (t : string) : bool :=
  match t with
  | String c _ => negb (digit_or_comma c || K_M_k c)
  | EmptyString => true
  end.

Definition is_dollar (c : ascii) : bool := Ascii.eqb c "$".

(** A suffix of a budget and the text after it: one of the letters [K],
    [M], [k] and then anything, or no letter and then a text that ends the
    budget. *)
Definition budget_suffix (sfx post : string) : bool :=
  match sfx with
  | EmptyString => ends_budget post
  | String c EmptyString => K_M_k c
  | _ => false
  end.

(** What may follow a run of digits: nothing, or a character that is not a
    digit. *)
Definition ends_digits (t : string) : bool :=
  match t with
  | String c _ => negb (is_digit c)
  | EmptyString => true
  end.

(* ===================================================================== *)
(** * Fixtures *)
(* ===================================================================== *)

(** A run in which every reading of the clock gives the same instant. *)
Definition env0 : Env := {|
  posted_at := fun _ => "2024-01-01T00:00:00.000Z";
  temp_id := fun i => Fin (inject_Z (1704067200000 + Z.of_nat i));
  scraped_at := fun _ => "2024-01-01T00:00:00.000Z"
|}.

(** A listing with a title and a description and nothing else. *)
Definition listing (t : string) (d : option string) : Listing := {|
  l_title := Some t;
  l_description := d;
  l_budget := None;
  l_location := None;
  l_stage := None;
  l_company := None;
  l_postedDate := None
|}.

(** The projects of [scrape_listings], or none when it throws. *)
Definition projects_of (r : result (list Project)) : list Project :=
  match r with
  | Ok projects => projects
  | Throw _ => []
  end.

(** Two postings with the same title in one batch. *)
Definition twin_batch : list Project :=
  projects_of
    (scrape_listings env0
       [listing "A" (Some "creature work"); listing "A" (Some "vfx")]).

(** The state in which the first scrape of Backstage leaves a fresh
    server. *)
Definition after_first_scrape : State :=
  (scrape_handler "2024-01-01T00:00:00.000Z" "backstage" (scrape env0)
     initial_state).1.

(** A catalog that already lists one of the productions Backstage has. *)
Definition one_known : State :=
  saveProjects
    (projects_of (scrape_listings env0
       [listing "Horror Short Film" (Some "practical effects only")]))
    initial_state.

(** A batch whose first listing has no description. *)
Definition bad_batch : list Listing :=
  [listing "Untitled" None; listing "Sequel" (Some "green screen stage")].

(* ===================================================================== *)
(** * The merge loop *)
(* ===================================================================== *)

Section Merge.

Implicit Types C P : list Project.

Lemma exists_in_titles C p : exists_in C p = true ↔ title p ∈ titles C.
Proof.
  unfold exists_in, titles. rewrite existsb_exists, list_elem_of_fmap.
  split.
  - intros (q & Hq & Heq). apply bool_decide_eq_true in Heq.
    exists q. split; [done|]. by apply list_elem_of_In.
  - intros (q & Heq & Hq). exists q. split; [by apply list_elem_of_In|].
    by apply bool_decide_eq_true.
Qed.

Lemma merge_loop_acc C acc P :
  fold_left
    (fun mergedProjects newProject =>
       if negb (exists_in C newProject)
       then mergedProjects ++ [newProject]
       else mergedProjects) P acc
  = acc ++ appended C P.
Proof.
  revert acc. induction P as [|p P IH]; intros acc; simpl.
  - by rewrite app_nil_r.
  - rewrite IH. unfold appended. simpl.
    destruct (negb (exists_in C p)); simpl; [|done].
    by rewrite <- app_assoc.
Qed.

Lemma merge_appended C P : merge C P = C ++ appended C P.
Proof. apply merge_loop_acc. Qed.

(** The catalog grows by exactly the postings whose titles it lacks. *)
Lemma merge_length C P :
  length (merge C P) =
  length C + length (List.filter (fun p => bool_decide (title p ∉ titles C)) P).
Proof.
  rewrite merge_appended, length_app. f_equal. unfold appended.
  f_equal. apply filter_ext. intros p.
  destruct (exists_in C p) eqn:E; simpl; symmetry.
  - apply bool_decide_eq_false. intros Hn. apply Hn.
    by apply exists_in_titles.
  - apply bool_decide_eq_true. intros Hin.
    apply exists_in_titles in Hin. congruence.
Qed.

Lemma elem_of_appended C P p :
  p ∈ appended C P ↔ p ∈ P ∧ exists_in C p = false.
Proof.
  unfold appended. rewrite !list_elem_of_In, filter_In, negb_true_iff.
  reflexivity.
Qed.

Lemma titles_merge C P : titles (merge C P) = titles C ++ titles (appended C P).
Proof. unfold titles. by rewrite merge_appended, map_app. Qed.

(** After a merge every title of the batch is in the catalog. *)
Lemma merge_covers C P p : p ∈ P → exists_in (merge C P) p = true.
Proof.
  intros Hp. apply exists_in_titles. rewrite titles_merge.
  apply elem_of_app.
  destruct (exists_in C p) eqn:E.
  - left. by apply exists_in_titles.
  - right. unfold titles. apply list_elem_of_fmap. exists p. split; [done|].
    by apply elem_of_appended.
Qed.

(** Merging the same batch again pushes nothing. *)
Lemma appended_again C P : appended (merge C P) P = [].
Proof.
  unfold appended.
  assert (H : ∀ Q, (∀ p, p ∈ Q → exists_in (merge C P) p = true) →
              List.filter (fun p => negb (exists_in (merge C P) p)) Q = []).
  { induction Q as [|q Q IH]; intros HQ; simpl; [done|].
    rewrite (HQ q) by constructor. simpl. apply IH.
    intros p Hp. apply HQ. by constructor. }
  apply H. intros p Hp. by apply merge_covers.
Qed.

Lemma merge_idempotent C P : merge (merge C P) P = merge C P.
Proof.
  rewrite (merge_appended (merge C P) P), appended_again.
  apply app_nil_r.
Qed.

(** Existing entries stay where they are, unchanged. *)
Lemma merge_keeps_existing C P i p : C !! i = Some p → merge C P !! i = Some p.
Proof. intros H. rewrite merge_appended. by apply lookup_app_l_Some. Qed.

Lemma NoDup_titles_filter (f : Project → bool) P :
  NoDup (titles P) → NoDup (titles (List.filter f P)).
Proof.
  unfold titles. induction P as [|p P IH]; simpl; intros Hnd; [constructor|].
  apply NoDup_cons in Hnd as [Hp Hnd].
  destruct (f p); simpl; [|by apply IH].
  apply NoDup_cons. split; [|by apply IH].
  intros Hin. apply Hp.
  apply list_elem_of_fmap in Hin as (q & Hq & Hin).
  apply list_elem_of_fmap. exists q. split; [done|].
  apply list_elem_of_In in Hin. apply filter_In in Hin as [Hin _].
  by apply list_elem_of_In.
Qed.

(** Titles stay pairwise distinct when those of the batch are. *)
Lemma merge_NoDup C P :
  NoDup (titles C) → NoDup (titles P) → NoDup (titles (merge C P)).
Proof.
  intros HC HP. rewrite titles_merge. apply NoDup_app. split; [done|].
  split; [|by apply NoDup_titles_filter].
  intros t Ht Ht'.
  apply list_elem_of_fmap in Ht' as (p & -> & Hp).
  apply elem_of_appended in Hp as [_ Hp].
  apply exists_in_titles in Ht. congruence.
Qed.

End Merge.

(* ===================================================================== *)
(** * Rounding to binary64 *)
(* ===================================================================== *)

Section Rounding.

Lemma two_pos_pow (e : Z) : (0 < two ^ e)%Q.
Proof. apply Qpower_0_lt. reflexivity. Qed.

Lemma two_pow_succ (e : Z) : (two ^ (e + 1) == 2 * two ^ e)%Q.
Proof. rewrite Qpower_plus by discriminate. change (two ^ 1)%Q with 2%Q. ring. Qed.

Lemma two_pow_le (a b : Z) : (a <= b)%Z → (two ^ a <= two ^ b)%Q.
Proof. intros H. apply Qpower_le_compat_l; [done|]. discriminate. Qed.

Lemma two_pow_lt_inv (a b : Z) : (two ^ a < two ^ b)%Q → (a < b)%Z.
Proof.
  intros H. destruct (Z_lt_le_dec a b) as [|Hle]; [done|].
  apply two_pow_le in Hle. apply Qlt_not_le in H. contradiction.
Qed.

Lemma two_pow_Z (n : Z) : (0 <= n)%Z → (two ^ n == inject_Z (2 ^ n))%Q.
Proof. intros H. symmetry. apply (Zpower_Qpower 2 n H). Qed.


Lemma two_pow_log2 (n : Z) :
  (0 < n)%Z →
  (two ^ Z.log2 n <= inject_Z n)%Q ∧ (inject_Z n < 2 * two ^ Z.log2 n)%Q.
Proof.
  intros Hn. destruct (Z.log2_spec n Hn) as [H1 H2].
  pose proof (Z.log2_nonneg n) as H0.
  split.
  - rewrite two_pow_Z by done. by rewrite <- Zle_Qle.
  - rewrite <- two_pow_succ, two_pow_Z by lia. by rewrite <- Zlt_Qlt.
Qed.

Lemma frac_lt (n d a b : Q) :
  (0 < d)%Q → (0 < b)%Q → (n * b < a * d)%Q → (n / d < a / b)%Q.
Proof.
  intros Hd Hb H. apply Qlt_shift_div_l; [done|].
  assert (E : (n / d * b == n * b / d)%Q) by (unfold Qdiv; ring).
  rewrite E. by apply Qlt_shift_div_r.
Qed.

Lemma frac_le (n d a b : Q) :
  (0 < d)%Q → (0 < b)%Q → (n * b <= a * d)%Q → (n / d <= a / b)%Q.
Proof.
  intros Hd Hb H. apply Qle_shift_div_l; [done|].
  assert (E : (n / d * b == n * b / d)%Q) by (unfold Qdiv; ring).
  rewrite E. by apply Qle_shift_div_r.
Qed.

Lemma ilog2_spec (q : Q) :
  (0 < q)%Q → (two ^ ilog2 q <= q)%Q ∧ (q < two ^ (ilog2 q + 1))%Q.
Proof.
  intros Hq. unfold ilog2.
  set (l := (Z.log2 (Qnum q) - Z.log2 (Z.pos (Qden q)))%Z).
  assert (Hn : (0 < Qnum q)%Z).
  { destruct q as [n d]. unfold Qlt in Hq. simpl in *. lia. }
  destruct (two_pow_log2 (Qnum q) Hn) as [Ha1 Ha2].
  destruct (two_pow_log2 (Z.pos (Qden q)) eq_refl) as [Hb1 Hb2].
  assert (Hl : (two ^ l == two ^ Z.log2 (Qnum q) / two ^ Z.log2 (Z.pos (Qden q)))%Q).
  { unfold l. apply Qpower_minus. discriminate. }
  assert (Hqd : (q == inject_Z (Qnum q) / inject_Z (Z.pos (Qden q)))%Q).
  { destruct q as [n d]. apply Qmake_Qdiv. }
  pose proof (two_pos_pow (Z.log2 (Qnum q))) as HA.
  pose proof (two_pos_pow (Z.log2 (Z.pos (Qden q)))) as HB.
  set (A := (two ^ Z.log2 (Qnum q))%Q) in *.
  set (B := (two ^ Z.log2 (Z.pos (Qden q)))%Q) in *.
  set (N := inject_Z (Qnum q)) in *.
  set (D := inject_Z (Z.pos (Qden q))) in *.
  assert (HD : (0 < D)%Q) by (apply Qlt_le_trans with B; done).
  assert (Hup : (q < two ^ (l + 1))%Q).
  { rewrite two_pow_succ, Hl, Hqd.
    assert (E : (2 * (A / B) == (2 * A) / B)%Q) by (unfold Qdiv; ring).
    rewrite E. apply frac_lt; [done..|]. nra. }
  assert (Hlow : (two ^ (l - 1) <= q)%Q).
  { assert (E : (two ^ l == 2 * two ^ (l - 1))%Q).
    { rewrite <- two_pow_succ. by replace (l - 1 + 1)%Z with l by lia. }
    assert (H2 : (2 * two ^ (l - 1) <= 2 * q)%Q); [|lra].
    rewrite <- E, Hl, Hqd.
    assert (E' : (2 * (N / D) == (2 * N) / D)%Q) by (unfold Qdiv; ring).
    rewrite E'. apply frac_le; [done..|]. nra. }
  destruct (Qle_bool (two ^ l) q) eqn:Ht.
  - apply Qle_bool_iff in Ht. done.
  - split; [done|]. replace (l - 1 + 1)%Z with l by lia.
    apply Qnot_le_lt. intros Hle. apply Qle_bool_iff in Hle. congruence.
Qed.

(** The binade is the only exponent with this property. *)
Lemma ilog2_le (t q : Q) :
  (0 < t)%Q → (t <= q)%Q → (ilog2 t <= ilog2 q)%Z.
Proof.
  intros Ht Htq.
  destruct (ilog2_spec t Ht) as [H1 _].
  destruct (ilog2_spec q) as [_ H2]; [lra|].
  assert (H : (two ^ ilog2 t < two ^ (ilog2 q + 1))%Q) by lra.
  apply two_pow_lt_inv in H. lia.
Qed.

Lemma round_even_floor (x : Q) : (Qfloor x <= round_even x)%Z.
Proof.
  unfold round_even.
  destruct (x - inject_Z (Qfloor x) ?= 1 # 2)%Q; [destruct (Z.even _)| |]; lia.
Qed.

Lemma round_even_integer (x : Q) (k : Z) :
  (x == inject_Z k)%Q → round_even x = k.
Proof.
  intros E. unfold round_even.
  assert (Hk : Qfloor x = k) by (rewrite E; apply Qfloor_Z).
  rewrite Hk.
  assert (Hlt : (x - inject_Z k < 1 # 2)%Q) by (rewrite E; lra).
  by rewrite (proj1 (Qlt_alt _ _) Hlt).
Qed.

Lemma ulp_pos (e : Z) : (0 < two ^ (e - 52))%Q.
Proof. apply two_pos_pow. Qed.

Lemma div_mul_ulp (q : Q) (e : Z) : (q / two ^ e * two ^ e == q)%Q.
Proof.
  field. intros E. pose proof (two_pos_pow e) as H. rewrite E in H.
  discriminate.
Qed.

(** Rounding never goes below a binary64 value that the argument reaches. *)
Lemma round64_pos_lower (t q : Q) :
  (0 < t)%Q → representable t → (t <= q)%Q →
  ge (round64_pos q) (Fin t) = true.
Proof.
  intros Ht Hrep Htq. unfold round64_pos.
  set (e := Z.max (ilog2 q) (-1022)).
  set (ulp := (two ^ (e - 52))%Q).
  set (k := round_even (q / ulp)).
  assert (Hq : (0 < q)%Q) by lra.
  assert (Hulp : (0 < ulp)%Q) by apply ulp_pos.
  assert (Hk : (Qfloor (q / ulp) <= k)%Z) by apply round_even_floor.
  assert (Hr : (t <= inject_Z k * ulp)%Q).
  { pose proof (ilog2_le t q Ht Htq) as Hi.
    destruct (Z.eq_dec (Z.max (ilog2 t) (-1022)) e) as [Ee|Ne].
    - unfold representable in Hrep. rewrite Ee in Hrep. fold ulp in Hrep.
      assert (Hdiv : (t / ulp <= q / ulp)%Q).
      { apply Qle_shift_div_l; [done|].
        unfold ulp. rewrite div_mul_ulp. done. }
      apply Qfloor_resp_le in Hdiv.
      assert (Et : (t == inject_Z (Qfloor (t / ulp)) * ulp)%Q).
      { rewrite Hrep. unfold ulp. by rewrite div_mul_ulp. }
      rewrite Et. apply Qmult_le_compat_r; [|lra].
      rewrite <- Zle_Qle. lia.
    - assert (He : e = ilog2 q) by lia.
      destruct (ilog2_spec q Hq) as [Hlo _]. rewrite <- He in Hlo.
      destruct (ilog2_spec t Ht) as [_ Hhi].
      assert (Hbin : (two ^ (ilog2 t + 1) <= two ^ e)%Q)
        by (apply two_pow_le; lia).
      assert (E52 : (two ^ e == inject_Z (2 ^ 52) * ulp)%Q).
      { unfold ulp. rewrite <- two_pow_Z by lia.
        rewrite <- Qpower_plus by discriminate.
        by replace (52 + (e - 52))%Z with e by lia. }
      assert (Hfl : (inject_Z (2 ^ 52) <= q / ulp)%Q).
      { apply Qle_shift_div_l; [done|]. by rewrite <- E52. }
      apply Qfloor_resp_le in Hfl. rewrite Qfloor_Z in Hfl.
      apply Qle_trans with (two ^ e)%Q; [lra|].
      rewrite E52. apply Qmult_le_compat_r; [|lra].
      rewrite <- Zle_Qle. lia. }
  destruct (Qle_bool (two ^ 1024) (inject_Z k * ulp)); simpl; [done|].
  apply Qle_bool_iff. by rewrite Qred_correct.
Qed.

(** Rounding leaves a binary64 value as it is. *)
Lemma round64_pos_exact (q : Q) :
  (0 < q)%Q → representable q → (q < two ^ 1024)%Q →
  round64_pos q = Fin (Qred q).
Proof.
  intros Hq Hrep Hmax. unfold round64_pos. unfold representable in Hrep.
  cbv zeta in *.
  set (ulp := (two ^ (Z.max (ilog2 q) (-1022) - 52))%Q) in *.
  rewrite (round_even_integer (q / ulp) (Qfloor (q / ulp)))
    by (by rewrite Hrep).
  assert (E : (inject_Z (Qfloor (q / ulp)) * ulp == q)%Q).
  { rewrite Hrep. unfold ulp. apply div_mul_ulp. }
  destruct (Qle_bool _ _) eqn:Hov.
  - apply Qle_bool_iff in Hov. rewrite E in Hov. lra.
  - f_equal. by apply Qred_complete.
Qed.

(** The integers below [2^53] are binary64 values. *)
Lemma representable_integer (n : Z) :
  (0 < n < 2 ^ 53)%Z → representable (inject_Z n).
Proof.
  intros [Hn Hmax]. unfold representable. cbv zeta.
  assert (Hq : (0 < inject_Z n)%Q) by (by rewrite <- (Zlt_Qlt 0%Z)).
  destruct (ilog2_spec _ Hq) as [Hlo Hhi].
  set (e := ilog2 (inject_Z n)) in *.
  assert (He : (0 <= e < 53)%Z).
  { split.
    - assert (H : (two ^ 0 < two ^ (e + 1))%Q).
      { apply Qle_lt_trans with (inject_Z n); [|done].
        change (two ^ 0)%Q with (inject_Z 1). rewrite <- Zle_Qle. lia. }
      apply two_pow_lt_inv in H. lia.
    - apply two_pow_lt_inv. apply Qle_lt_trans with (inject_Z n); [done|].
      rewrite two_pow_Z by lia. by rewrite <- Zlt_Qlt. }
  replace (Z.max e (-1022)) with e by lia.
  assert (E : (inject_Z n / two ^ (e - 52) == inject_Z (n * 2 ^ (52 - e)))%Q).
  { rewrite inject_Z_mult, <- two_pow_Z by lia.
    replace (52 - e)%Z with (- (e - 52))%Z by lia.
    rewrite Qpower_opp. reflexivity. }
  rewrite (Qfloor_comp _ _ E), Qfloor_Z. by rewrite E.
Qed.

Lemma round64_integer (n : Z) :
  (0 <= n < 2 ^ 53)%Z → round64 (inject_Z n) = Fin (inject_Z n).
Proof.
  intros [Hn Hmax]. destruct (Z.eq_dec n 0%Z) as [->|Hne]; [done|].
  assert (Hq : (0 < inject_Z n)%Q) by (rewrite <- (Zlt_Qlt 0%Z); lia).
  unfold round64. rewrite (proj1 (Qgt_alt _ _) Hq).
  rewrite round64_pos_exact, inject_Z_Qred; [done..| |].
  - apply representable_integer. lia.
  - apply Qlt_trans with (inject_Z (2 ^ 53)); [by rewrite <- Zlt_Qlt|done].
Qed.

Lemma round64_lower (t q : Q) :
  (0 < t)%Q → representable t → (t <= q)%Q → ge (round64 q) (Fin t) = true.
Proof.
  intros Ht Hrep Htq. unfold round64.
  assert (Hq : (0 < q)%Q) by lra. rewrite (proj1 (Qgt_alt _ _) Hq).
  by apply round64_pos_lower.
Qed.

End Rounding.

(* ===================================================================== *)
(** * Reading numbers *)
(* ===================================================================== *)

Section Parsing.

Ltac each_char c := destruct c as [[] [] [] [] [] [] [] []].

Lemma digit_facts (c : ascii) :
  is_digit c = true →
  is_space c = false ∧ Ascii.eqb c "+" = false ∧ Ascii.eqb c "-" = false ∧
  Ascii.eqb c "." = false ∧ dollar_comma_K c = false ∧
  Ascii.eqb c "I" = false ∧ (0 <= digit_value c <= 9)%Z.
Proof.
  each_char c; intros H; try discriminate H; vm_compute;
    intuition discriminate.
Qed.

Lemma comma_facts (c : ascii) :
  is_digit_or_comma c = true →
  Ascii.eqb c "M" = false ∧ dollar_comma_K c = negb (is_digit c).
Proof.
  each_char c; intros H; try discriminate H; vm_compute;
    intuition discriminate.
Qed.

Lemma append_cons (c : ascii) (s t : string) :
  String c s +:+ t = String c (s +:+ t).
Proof. reflexivity. Qed.

Lemma append_nil (s : string) : "" +:+ s = s.
Proof. reflexivity. Qed.

Lemma append_empty (s : string) : s +:+ "" = s.
Proof.
  induction s as [|c s IH]; [done|]. by rewrite append_cons, IH.
Qed.

Lemma remove_chars_app (f : ascii → bool) (s t : string) :
  remove_chars f (s +:+ t) = remove_chars f s +:+ remove_chars f t.
Proof.
  induction s as [|c s IH]; [done|]. rewrite append_cons. simpl.
  rewrite IH. by destruct (f c).
Qed.

(** Of an amount the stripping keeps the digits. *)
Lemma strip_amount (a : string) :
  all_chars is_digit_or_comma a = true →
  remove_chars dollar_comma_K a = keep_digits a ∧ includes a "M" = false.
Proof.
  unfold keep_digits.
  induction a as [|c a IH]; simpl; intros H; [done|].
  apply andb_true_iff in H as [Hc Ha].
  destruct (IH Ha) as [IH1 IH2].
  destruct (comma_facts c Hc) as [HM E]. rewrite E, IH1, IH2, HM.
  by split.
Qed.

Lemma keep_digits_all (a : string) : all_chars is_digit (keep_digits a) = true.
Proof.
  unfold keep_digits. induction a as [|c a IH]; simpl; [done|].
  destruct (is_digit c) eqn:E; simpl; [by rewrite E|done].
Qed.

Lemma keep_digits_nonempty (a : string) :
  any_char is_digit a = true → keep_digits a ≠ "".
Proof.
  unfold keep_digits. induction a as [|c a IH]; simpl; [done|].
  destruct (is_digit c); simpl; [done|]. apply IH.
Qed.

Lemma digits_value_bounds (ds : string) (acc : Z) :
  all_chars is_digit ds = true → (0 <= acc)%Z → (0 <= digits_value acc ds)%Z.
Proof.
  revert acc. induction ds as [|c ds IH]; simpl; intros acc H Hacc; [done|].
  apply andb_true_iff in H as [Hc Hds].
  apply IH; [done|]. destruct (digit_facts c Hc) as (_&_&_&_&_&_&?). lia.
Qed.

(** The digits of a digit string are all of it, up to what follows. *)
Lemma span_digits_all (ds tail : string) :
  all_chars is_digit ds = true →
  span_digits tail = ("", tail) →
  span_digits (ds +:+ tail) = (ds, tail).
Proof.
  intros H Ht. induction ds as [|c ds IH]; [done|]. simpl in H.
  apply andb_true_iff in H as [Hc Hds].
  rewrite append_cons. simpl. by rewrite Hc, IH.
Qed.

(** [parseFloat] of a string of digits, alone or before an [M]. *)
Lemma parseFloat_digits (ds tail : string) :
  all_chars is_digit ds = true → ds ≠ "" → tail = "" ∨ tail = "M" →
  parseFloat (ds +:+ tail) = round64 (inject_Z (digits_value 0 ds)).
Proof.
  intros Hds Hne Htail. unfold parseFloat.
  destruct ds as [|c ds]; [done|]. simpl in Hds.
  apply andb_true_iff in Hds as [Hc Hds].
  destruct (digit_facts c Hc) as (Hsp & Hplus & Hminus & _ & _ & HI & _).
  rewrite append_cons. simpl trim_start. rewrite Hsp.
  unfold take_sign. rewrite Hplus, Hminus.
  simpl starts_with. rewrite HI. simpl andb. cbv iota. rewrite <- append_cons.
  rewrite (span_digits_all (String c ds) tail);
    [|by simpl; rewrite Hc|by destruct Htail as [->| ->]].
  assert (Hrest :
    (match tail with
     | String c' r =>
         if Ascii.eqb c' "." then span_digits r else ("", tail)
     | EmptyString => ("", tail)
     end) = ("", tail)) by (by destruct Htail as [->| ->]).
  rewrite Hrest, append_empty.
  assert (Hex : exponent_part tail = 0%Z) by (by destruct Htail as [->| ->]).
  rewrite Hex. simpl String.length. simpl Z.sub.
  change (inject_Z 10 ^ 0)%Q with 1%Q.
  unfold Qmult. simpl Qnum. simpl Qden. by rewrite Z.mul_1_r.
Qed.

Lemma any_char_remove (f g : ascii → bool) (s : string) :
  any_char f s = false → any_char f (remove_chars g s) = false.
Proof.
  induction s as [|c s IH]; simpl; [done|]. intros H.
  apply orb_false_iff in H as [Hc Hs].
  destruct (g c); simpl; [by apply IH|]. by rewrite Hc, IH.
Qed.

Lemma any_char_trim_start (f : ascii → bool) (s : string) :
  any_char f s = false → any_char f (trim_start s) = false.
Proof.
  induction s as [|c s IH]; simpl; [done|]. intros H.
  destruct (is_space c); [|done].
  apply orb_false_iff in H as [_ Hs]. by apply IH.
Qed.

Lemma any_char_take_sign (f : ascii → bool) (s : string) :
  any_char f s = false → any_char f (take_sign s).2 = false.
Proof.
  destruct s as [|c s]; simpl; [done|]. intros H.
  apply orb_false_iff in H as [Hc Hs].
  destruct (Ascii.eqb c "+"); [done|].
  destruct (Ascii.eqb c "-"); [done|]. simpl. by rewrite Hc, Hs.
Qed.

Lemma span_digits_none (s : string) :
  any_char is_digit s = false → span_digits s = ("", s).
Proof.
  destruct s as [|c s]; simpl; [done|]. intros H.
  apply orb_false_iff in H as [Hc _]. by rewrite Hc.
Qed.

(** [parseFloat] of a string without a digit: an infinity or [NaN]. *)
Lemma parseFloat_no_digit (s : string) :
  any_char is_digit s = false →
  parseFloat s =
    if starts_with (take_sign (trim_start s)).2 "Infinity"
    then Inf (take_sign (trim_start s)).1 else NaN.
Proof.
  intros H. unfold parseFloat.
  pose proof (any_char_take_sign _ _ (any_char_trim_start _ _ H)) as Ht.
  destruct (take_sign (trim_start s)) as [sg t]. cbn [fst snd] in *.
  destruct (starts_with t "Infinity"); [done|].
  rewrite (span_digits_none t Ht).
  destruct t as [|c t]; [done|]. simpl in Ht.
  apply orb_false_iff in Ht as [_ Ht].
  destruct (Ascii.eqb c "."); [|done].
  by rewrite (span_digits_none t Ht).
Qed.

End Parsing.

(* ===================================================================== *)
(** * The tiers *)
(* ===================================================================== *)

Section Tiers.

Lemma Qle_bool_inject (a b : Z) :
  Qle_bool (inject_Z a) (inject_Z b) = (a <=? b)%Z.
Proof. unfold Qle_bool. simpl. by rewrite !Z.mul_1_r. Qed.

(** A product stays above a binary64 value that the exact product
    reaches. *)
Lemma mul_lower (x : number) (t f T : Q) :
  ge x (Fin t) = true → (0 < t)%Q → (0 < f)%Q → (0 < T)%Q →
  representable T → (T <= t * f)%Q →
  ge (mul x (Fin f)) (Fin T) = true.
Proof.
  intros Hx Ht Hf HT Hrep Hle. destruct x as [|[]|r]; simpl in *; try done.
  - by rewrite (proj1 (Qgt_alt _ _) Hf).
  - apply Qle_bool_iff in Hx. apply round64_lower; [done..|]. nra.
Qed.

(** The comparisons of [determineTier], on an amount spelled with digits:
    they are those of the integers. *)
Lemma integer_amount_ge (v f T : Z) :
  (0 <= v)%Z → (0 < f)%Z → (0 < T < 2 ^ 53)%Z →
  ge (mul (round64 (inject_Z v)) (Fin (inject_Z f))) (Fin (inject_Z T))
  = (T <=? v * f)%Z.
Proof.
  intros Hv Hf HT. destruct (Z.leb_spec T (v * f)) as [Hle|Hlt].
  - set (t := ((T + f - 1) / f)%Z).
    assert (Ht : (0 < t ∧ t <= v ∧ T <= t * f ∧ t <= T)%Z).
    { unfold t. repeat split.
      - apply Z.div_str_pos. lia.
      - apply Z.lt_succ_r, Z.div_lt_upper_bound; nia.
      - pose proof (Z.mul_succ_div_gt (T + f - 1) f Hf). nia.
      - apply Z.lt_succ_r, Z.div_lt_upper_bound; nia. }
    destruct Ht as (Ht0 & Htv & HtT & HtT').
    apply (mul_lower _ (inject_Z t)).
    + apply round64_lower.
      * by rewrite <- (Zlt_Qlt 0%Z).
      * apply representable_integer. lia.
      * by rewrite <- Zle_Qle.
    + by rewrite <- (Zlt_Qlt 0%Z).
    + by rewrite <- (Zlt_Qlt 0%Z).
    + rewrite <- (Zlt_Qlt 0%Z). lia.
    + by apply representable_integer.
    + rewrite <- inject_Z_mult, <- Zle_Qle. lia.
  - assert (Hv' : (v < 2 ^ 53)%Z) by nia.
    rewrite round64_integer by lia. unfold mul.
    change (inject_Z v * inject_Z f)%Q with (inject_Z (v * f)).
    rewrite round64_integer by nia. unfold ge.
    rewrite Qle_bool_inject. lia.
Qed.

Lemma determineTier_amount (b : string) :
  b ≠ "" → b ≠ "TBD" →
  determineTier (Some b) =
    if ge (amount b) (Fin 10000) then tier1
    else if ge (amount b) (Fin 1000) then tier2
    else if ge (amount b) (Fin 100) then tier3
    else tier4.
Proof.
  intros H1 H2. unfold determineTier.
  apply String.eqb_neq in H1, H2. by rewrite H1, H2.
Qed.

Lemma budget_text_amount (a : string) (sfx : Suffix) :
  is_amount a = true →
  amount (budget_text a sfx) =
  mul (round64 (inject_Z (amount_value a))) (Fin (inject_Z (factor sfx))).
Proof.
  intros Ha. apply andb_true_iff in Ha as [Hall Hany].
  destruct (strip_amount a Hall) as [Hstrip HM].
  unfold amount, budget_text.
  assert (Hparse :
    parseFloat (remove_chars dollar_comma_K ("$" +:+ a +:+ suffix_text sfx))
    = round64 (inject_Z (amount_value a))).
  { rewrite append_cons, append_nil. simpl remove_chars.
    rewrite remove_chars_app, Hstrip.
    apply (parseFloat_digits (keep_digits a)
             (remove_chars dollar_comma_K (suffix_text sfx)));
      [apply keep_digits_all|by apply keep_digits_nonempty|].
    destruct sfx; [by left|by right]. }
  rewrite Hparse. f_equal.
  assert (Hinc : includes ("$" +:+ a +:+ suffix_text sfx) "M"
                 = match sfx with K => false | M => true end).
  { rewrite append_cons, append_nil. simpl.
    clear -HM. induction a as [|c a IH]; [by destruct sfx|].
    rewrite append_cons. simpl in *.
    apply orb_false_iff in HM as [Hc Ha]. rewrite Hc. by apply IH. }
  rewrite Hinc. by destruct sfx.
Qed.

Lemma tier_at_monotone (j k : Z) :
  (j <= k)%Z → rank (tier_at j) <= rank (tier_at k).
Proof.
  intros H. unfold tier_at.
  repeat match goal with
         | |- context [(?a <=? ?b)%Z] => destruct (Z.leb_spec a b)
         end; simpl; lia.
Qed.

Lemma amount_value_nonneg (a : string) : (0 <= amount_value a)%Z.
Proof. apply digits_value_bounds; [apply keep_digits_all|done]. Qed.

Lemma budget_text_tier (a : string) (sfx : Suffix) :
  is_amount a = true →
  determineTier (Some (budget_text a sfx)) = tier_at (thousands a sfx).
Proof.
  intros Ha. rewrite determineTier_amount by done.
  rewrite (budget_text_amount a sfx Ha).
  pose proof (amount_value_nonneg a) as Hv.
  assert (Hf : (0 < factor sfx)%Z) by (by destruct sfx).
  change (Fin 10000) with (Fin (inject_Z 10000)).
  change (Fin 1000) with (Fin (inject_Z 1000)).
  change (Fin 100) with (Fin (inject_Z 100)).
  rewrite !integer_amount_ge by done. reflexivity.
Qed.

End Tiers.

(* ===================================================================== *)
(** * The scrape handler *)
(* ===================================================================== *)

Section Handler.

Implicit Types (now sourceName : string) (st : State).

Lemma lacks_None {A} (m : gmap string A) (key : string) :
  lacks m key = true ↔ m !! key = None.
Proof. unfold lacks. by destruct (m !! key). Qed.

Lemma sets_prototype_name sourceName st :
  sourceName ≠ "__proto__" → sets_prototype sourceName st = false.
Proof.
  intros H. unfold sets_prototype.
  by rewrite (proj2 (String.eqb_neq _ _) H).
Qed.

(** What is read under the name [__proto__] when the assignment to it
    would reach the setter has no field of that name. *)
Lemma sets_prototype_read sourceName st :
  sets_prototype sourceName st = true →
  sourceName = "__proto__" ∧ sourcesCache st !! sourceName = None ∧
  status_of sourceName st !! sourceName = None.
Proof.
  unfold sets_prototype, status_of, read_source. intros H.
  apply andb_true_iff in H as [H Hp]. apply andb_true_iff in H as [Hn Ho].
  apply String.eqb_eq in Hn. apply lacks_None in Ho.
  split; [done|]. split; [done|]. rewrite Ho.
  destruct (sourcesProto st) as [proto|]; [|done].
  apply lacks_None in Hp. rewrite Hp.
  by rewrite (proj2 (String.eqb_eq _ _) Hn).
Qed.

(** The record an update leaves is read back as it was written. *)
Lemma status_of_update sourceName updates st :
  updates !! "__proto__" = None →
  status_of sourceName (updateSourceStatus sourceName updates st)
  = updates ∪ status_of sourceName st.
Proof.
  intros Hu. unfold updateSourceStatus.
  destruct (sets_prototype sourceName st) eqn:E.
  - destruct (sets_prototype_read _ _ E) as (Hn & Ho & Hr).
    fold (status_of sourceName st).
    unfold status_of at 1, read_source. cbn [sourcesCache sourcesProto].
    rewrite Ho. subst sourceName.
    by rewrite (proj2 (lookup_union_None _ _ _) (conj Hu Hr)).
  - unfold status_of at 1, read_source. cbn [sourcesCache].
    by rewrite lookup_insert_eq.
Qed.

Lemma projectsCache_update sourceName updates st :
  projectsCache (updateSourceStatus sourceName updates st) = projectsCache st.
Proof. unfold updateSourceStatus. by destruct (sets_prototype _ _). Qed.

(** An update under an ordinary name changes what that name reads and
    nothing else. *)
Lemma read_update_other sourceName other updates st :
  sourceName ≠ "__proto__" → other ≠ sourceName →
  read_source other (updateSourceStatus sourceName updates st)
  = read_source other st.
Proof.
  intros Hn Ho. unfold updateSourceStatus.
  rewrite sets_prototype_name by done.
  unfold read_source. cbn [sourcesCache sourcesProto].
  by rewrite lookup_insert_ne.
Qed.

Lemma update_own sourceName updates st :
  sourceName ≠ "__proto__" →
  sourcesCache (updateSourceStatus sourceName updates st) !! sourceName
  = Some (updates ∪ status_of sourceName st).
Proof.
  intros Hn. unfold updateSourceStatus.
  rewrite sets_prototype_name by done. cbn [sourcesCache].
  by rewrite lookup_insert_eq.
Qed.

Lemma status_of_save sourceName projects st :
  status_of sourceName (saveProjects projects st) = status_of sourceName st.
Proof. done. Qed.

Lemma handler_success_state now sourceName newProjects st :
  (scrape_handler now sourceName (Ok newProjects) st).1
  = updateSourceStatus sourceName
      {[ "status" := VStr "active";
         "projectCount" := VNum (length newProjects) ]}
      (saveProjects
         (merge (projectsCache
                   (updateSourceStatus sourceName
                      {[ "status" := VStr "scraping";
                         "lastScrape" := VStr now ]} st))
            newProjects)
         (updateSourceStatus sourceName
            {[ "status" := VStr "scraping"; "lastScrape" := VStr now ]} st)).
Proof. done. Qed.

Lemma handler_failure_state now sourceName error st :
  (scrape_handler now sourceName (Throw error) st).1
  = updateSourceStatus sourceName {[ "status" := VStr "error" ]}
      (updateSourceStatus sourceName
         {[ "status" := VStr "scraping"; "lastScrape" := VStr now ]} st).
Proof. done. Qed.

(** What the handler answers when the scraper returns: the size of the
    batch as [projectsAdded], the size of the merged catalog as
    [totalProjects]. *)
Lemma handler_success now sourceName newProjects st :
  let out := scrape_handler now sourceName (Ok newProjects) st in
  projectsCache out.1 = merge (projectsCache st) newProjects ∧
  out.2 = Json200 true (length newProjects)
            (length (merge (projectsCache st) newProjects)) sourceName.
Proof.
  intros out. unfold out. rewrite handler_success_state.
  unfold scrape_handler. cbn [snd getProjects].
  by rewrite !projectsCache_update.
Qed.

Lemma handler_failure now sourceName error st :
  let out := scrape_handler now sourceName (Throw error) st in
  projectsCache out.1 = projectsCache st ∧ out.2 = Json500 (message error).
Proof.
  intros out. unfold out. rewrite handler_failure_state.
  by rewrite !projectsCache_update.
Qed.

End Handler.

Section Scrape.

Lemma process_item_missing env i item :
  l_description item = None → process_item env i item = Throw missing_description.
Proof. intros H. unfold process_item. by rewrite H. Qed.

Lemma process_item_total env i item :
  (∃ p, process_item env i item = Ok p) ∨
  process_item env i item = Throw missing_description.
Proof.
  unfold process_item, classifyVFXNeeds.
  destruct (l_description item); [left|by right].
  repeat (destruct (some_included _ _); [by eexists|]). by eexists.
Qed.

Lemma process_listings_missing env items i projects :
  (∃ item, item ∈ items ∧ l_description item = None) →
  process_listings env i items projects = Throw missing_description.
Proof.
  revert i projects. induction items as [|item items IH];
    intros i projects (bad & Hin & Hbad).
  - by apply elem_of_nil in Hin.
  - simpl. destruct (process_item_total env i item) as [[p Hp]|Hp];
      rewrite Hp; simpl; [|done].
    apply IH. exists bad. split; [|done].
    apply elem_of_cons in Hin as [->|Hin]; [|done].
    rewrite process_item_missing in Hp by done. discriminate.
Qed.

End Scrape.

(* ===================================================================== *)
(** * The scenarios of the specification *)
(* ===================================================================== *)

Section Scenarios.

Example scenario_creature_work :
  classifyVFXNeeds (Some "creature work, 500+ shots") (Some "$15M")
  = Ok Extreme ∧ determineTier (Some "$15M") = tier1.
Proof. by vm_compute. Qed.

Example scenario_motion_graphics :
  classifyVFXNeeds (Some "motion graphics") (Some "$80K") = Ok Low ∧
  determineTier (Some "$80K") = tier4.
Proof. by vm_compute. Qed.

(** A description with an Extreme keyword and a Medium one is Extreme. *)
Example keyword_priority :
  classifyVFXNeeds (Some "Post Production with GREEN SCREEN plates") None
  = Ok Extreme.
Proof. by vm_compute. Qed.

Example mock_data_classified :
  map (fun p => (title p, tier p, vfxNeeds p)) (projects_of (scrape env0))
  = [ (Some "Sci-Fi Feature Film - VFX Heavy", tier1, Extreme);
      (Some "Horror Short Film", tier3, Medium);
      (Some "Commercial - Tech Brand", tier4, Medium) ].
Proof. by vm_compute. Qed.

(** The budget is read in thousands whatever it was written in. *)
Example dollars_read_as_thousands : determineTier (Some "$50,000") = tier1.
Proof. by vm_compute. Qed.

Example first_scrape_response :
  (scrape_handler "2024-01-01T00:00:00.000Z" "backstage" (scrape env0)
     initial_state).2
  = Json200 true 3 3 "backstage".
Proof. by vm_compute. Qed.

(** On a second scrape of the same source the count of the source is the
    three postings returned, though none of them is added. *)
Example second_scrape_count :
  let out :=
    scrape_handler "2024-01-02T00:00:00.000Z" "backstage" (scrape env0)
      after_first_scrape in
  status_of "backstage" out.1 !! "projectCount" = Some (VNum 3) ∧
  length (projectsCache out.1) = length (projectsCache after_first_scrape).
Proof. by vm_compute. Qed.

End Scenarios.

(* ===================================================================== *)
(** * The properties of the pipeline *)
(* ===================================================================== *)

(** C1. The count answered as [projectsAdded] should be the number of
    postings appended to the catalog.  Here the catalog already lists
    "Horror Short Film"; Backstage returns three postings, two of them new:
    the catalog grows from one entry to three, and the handler answers
    [projectsAdded: 3]. *)
Theorem C1_projectsAdded_is_batch_size :
  let out :=
    scrape_handler "2024-01-02T00:00:00.000Z" "backstage" (scrape env0)
      one_known in
  length (projectsCache one_known) = 1 ∧
  length (projectsCache out.1) = 3 ∧
  out.2 = Json200 true 3 3 "backstage".
Proof. vm_compute. done. Qed.

(** C2. No two entries of a merged catalog should share a title.  Merging
    a batch of two postings titled "A" into the empty catalog keeps both. *)
Theorem C2_twin_titles_both_kept :
  let out :=
    scrape_handler "2024-01-02T00:00:00.000Z" "backstage" (Ok twin_batch)
      initial_state in
  NoDup (titles (projectsCache initial_state)) ∧
  titles (projectsCache out.1) = [Some "A"; Some "A"] ∧
  ¬ NoDup (titles (projectsCache out.1)).
Proof.
  split; [constructor|]. split; [done|].
  change (¬ NoDup [Some "A"; Some "A"]). intros H.
  apply NoDup_cons in H as [H _]. apply H. constructor.
Qed.

(** C3, as the claim states it, fails: a batch whose first posting has no
    description yields no project at all, for that posting or for the one
    after it. *)
Lemma C3_bad_posting_aborts_batch :
  ¬ ∃ projects,
      scrape_listings env0 bad_batch = Ok projects ∧
      length projects = length bad_batch ∧
      ∃ p, projects !! 0 = Some p ∧ vfxNeeds p = Low ∧ tier p = tier4.
Proof. intros (projects & H & _). vm_compute in H. discriminate. Qed.

(** C3, amended.  When a posting of the batch has no description, the
    classification throws a [TypeError], [scrape] throws it again and
    returns no project; the handler given this outcome answers with status
    500, leaves the catalog as it was and sets the source's state to
    [error]. *)
Theorem C3_missing_description_aborts (env : Env) (items : list Listing)
    (now sourceName : string) (st : State) :
  (∃ item, item ∈ items ∧ l_description item = None) →
  let out := scrape_handler now sourceName (scrape_listings env items) st in
  scrape_listings env items = Throw missing_description ∧
  out.2 = Json500 (message missing_description) ∧
  projectsCache out.1 = projectsCache st ∧
  status_of sourceName out.1 !! "status" = Some (VStr "error").
Proof.
  intros Hbad. unfold scrape_listings.
  rewrite (process_listings_missing env items 0 [] Hbad).
  cbn [log_and_rethrow]. rewrite handler_failure_state.
  repeat split.
  - by rewrite !projectsCache_update.
  - rewrite status_of_update by done.
    by rewrite lookup_union_l', lookup_singleton_eq.
Qed.

Lemma C3_missing_description_aborts_witness :
  (∃ item, item ∈ bad_batch ∧ l_description item = None) ∧
  scrape_listings env0 bad_batch = Throw missing_description.
Proof.
  refine (let H := ex_intro _ (listing "Untitled" None)
                     (conj (list_elem_of_here _ _) eq_refl) in
          conj H (proj1 (C3_missing_description_aborts env0 bad_batch
                           "2024-01-02T00:00:00.000Z" "backstage"
                           initial_state H))).
Defined.

(** C4. Merging the same batch a second time should change nothing and
    report no addition.  Scraping Backstage a second time leaves the
    catalog as the first scrape made it, and the handler answers
    [projectsAdded: 3]. *)
Theorem C4_second_merge_reports_batch_size :
  let out :=
    scrape_handler "2024-01-02T00:00:00.000Z" "backstage" (scrape env0)
      after_first_scrape in
  projectsCache out.1 = projectsCache after_first_scrape ∧
  out.2 = Json200 true 3 3 "backstage".
Proof. vm_compute. done. Qed.

(** C6. When the scraper returns, the source's state becomes [active] and
    its count the number of postings the scraper returned. *)
Theorem C6_success_sets_active_and_yield (now sourceName : string)
    (newProjects : list Project) (st : State) :
  let out := scrape_handler now sourceName (Ok newProjects) st in
  status_of sourceName out.1 !! "status" = Some (VStr "active") ∧
  status_of sourceName out.1 !! "projectCount"
  = Some (VNum (length newProjects)).
Proof.
  intros out. unfold out. rewrite handler_success_state.
  rewrite status_of_update by done. split.
  - by rewrite lookup_union_l', lookup_insert_eq.
  - rewrite lookup_union_l'; [by rewrite lookup_insert_ne, lookup_singleton_eq|].
    by rewrite lookup_insert_ne, lookup_singleton_eq.
Qed.

(** C7. When the scraper throws, the source's state ends as [error], its
    count is the one it had before the cycle and its time the one set at
    the start of the cycle; the failure path changes no field but the
    state, and not the catalog.  The record is the one the code reads under
    the source's name.  Under every name but [__proto__] what the other
    names read does not change either. *)
Theorem C7_failure_keeps_count_and_time (now sourceName : string)
    (error : exn) (st : State) :
  let started :=
    updateSourceStatus sourceName
      {[ "status" := VStr "scraping"; "lastScrape" := VStr now ]} st in
  let out := scrape_handler now sourceName (Throw error) st in
  status_of sourceName out.1 !! "status" = Some (VStr "error") ∧
  status_of sourceName out.1 !! "projectCount"
  = status_of sourceName st !! "projectCount" ∧
  status_of sourceName out.1 !! "lastScrape" = Some (VStr now) ∧
  (∀ field, field ≠ "status" →
     status_of sourceName out.1 !! field
     = status_of sourceName started !! field) ∧
  (sourceName ≠ "__proto__" →
   ∀ other, other ≠ sourceName →
     read_source other out.1 = read_source other st) ∧
  projectsCache out.1 = projectsCache st.
Proof.
  intros started out. unfold out, started. rewrite handler_failure_state.
  rewrite !status_of_update by done. repeat split.
  - by rewrite lookup_union_l', lookup_singleton_eq.
  - rewrite lookup_union_r by done. rewrite lookup_union_r; [done|].
    by rewrite lookup_insert_ne.
  - rewrite lookup_union_r by done.
    rewrite lookup_union_l'; [by rewrite lookup_insert_ne, lookup_singleton_eq|].
    by rewrite lookup_insert_ne, lookup_singleton_eq.
  - intros field Hf. rewrite lookup_union_r; [done|].
    by rewrite lookup_singleton_ne.
  - intros Hn other Ho. by rewrite !read_update_other.
  - by rewrite !projectsCache_update.
Qed.

Lemma C7_failure_keeps_count_and_time_witness :
  "backstage" ≠ "__proto__" ∧
  ∀ other, other ≠ "backstage" →
    read_source other
      (scrape_handler "2024-01-02T00:00:00.000Z" "backstage"
         (Throw (Error "Request failed")) initial_state).1
    = read_source other initial_state.
Proof.
  assert (H : "backstage" ≠ "__proto__") by discriminate.
  exact (conj H
           (proj1 (proj2 (proj2 (proj2 (proj2
              (C7_failure_keeps_count_and_time "2024-01-02T00:00:00.000Z"
                 "backstage" (Error "Request failed") initial_state)))))
              H)).
Defined.

(** C8. [determineTier] gives tier3 for "TBD" and for an absent budget,
    and tier4 for a budget whose amount is a number below 100 thousand, as
    "$80K" is. *)
Theorem C8_unknown_budget_is_tier3 :
  determineTier (Some "TBD") = tier3 ∧
  determineTier None = tier3 ∧
  determineTier (Some "$80K") = tier4 ∧
  ∀ (b : string) (q : Q),
    b ≠ "" → b ≠ "TBD" → amount b = Fin q → (q < 100)%Q →
    determineTier (Some b) = tier4.
Proof.
  repeat split. intros b q H1 H2 Hq Hlt.
  rewrite determineTier_amount, Hq by done. simpl.
  assert (H : ∀ t : Q, (100 <= t)%Q → Qle_bool t q = false).
  { intros t Ht. destruct (Qle_bool t q) eqn:E; [|done].
    apply Qle_bool_iff in E. lra. }
  by rewrite !H.
Qed.

Lemma C8_unknown_budget_is_tier3_witness :
  "$99" ≠ "" ∧ "$99" ≠ "TBD" ∧ amount "$99" = Fin 99 ∧ (99 < 100)%Q ∧
  determineTier (Some "$99") = tier4.
Proof.
  assert (H1 : "$99" ≠ "") by discriminate.
  assert (H2 : "$99" ≠ "TBD") by discriminate.
  exact (conj H1 (conj H2 (conj eq_refl (conj eq_refl
           (proj2 (proj2 (proj2 C8_unknown_budget_is_tier3))
              "$99" 99%Q H1 H2 eq_refl eq_refl))))).
Defined.

(** C9. The level [classifyVFXNeeds] gives does not depend on the budget
    it is passed: it is the same for any two budgets, and so are the level
    and the rationale of the project [scrape] builds from a listing. *)
Theorem C9_classification_ignores_budget (d b1 b2 : option string)
    (env : Env) (i : nat) (item : Listing) :
  classifyVFXNeeds d b1 = classifyVFXNeeds d b2 ∧
  needs_of (process_item env i (with_budget b1 item))
  = needs_of (process_item env i (with_budget b2 item)).
Proof.
  split; [reflexivity|].
  unfold process_item. cbn [with_budget l_description l_budget].
  change (classifyVFXNeeds (l_description item) b2)
    with (classifyVFXNeeds (l_description item) b1).
  by destruct (classifyVFXNeeds (l_description item) b1).
Qed.

(** C10, as the claim states it, fails: "Infinity" is not empty, is not
    "TBD" and has no digit, and its tier is tier1. *)
Lemma C10_infinity_is_tier1 :
  ¬ ∀ b : string,
      b ≠ "" → b ≠ "TBD" → any_char is_digit b = false →
      determineTier (Some b) = tier4.
Proof. intros H. by specialize (H "Infinity" ltac:(done) ltac:(done) eq_refl). Qed.

(** C10, amended.  A budget string that is not empty, is not "TBD" and has
    no digit gets tier4, unless, stripped of [$], commas and [K] and of
    leading white space, it starts with [Infinity] or [+Infinity]: then it
    gets tier1. *)
Theorem C10_no_digit_tier (b : string) :
  b ≠ "" → b ≠ "TBD" → any_char is_digit b = false →
  determineTier (Some b) = if reads_infinity b then tier1 else tier4.
Proof.
  intros H1 H2 Hd. rewrite determineTier_amount by done.
  unfold amount, reads_infinity.
  rewrite parseFloat_no_digit by (by apply any_char_remove).
  destruct (take_sign _) as [sg t]. cbn [fst snd].
  destruct (starts_with t "Infinity"); [|by destruct (includes b "M"), sg].
  by destruct sg, (includes b "M").
Qed.

Lemma C10_no_digit_tier_witness :
  "negotiable" ≠ "" ∧ "negotiable" ≠ "TBD" ∧
  any_char is_digit "negotiable" = false ∧
  determineTier (Some "negotiable") = tier4.
Proof.
  assert (H1 : "negotiable" ≠ "") by discriminate.
  assert (H2 : "negotiable" ≠ "TBD") by discriminate.
  exact (conj H1 (conj H2 (conj eq_refl
           (C10_no_digit_tier "negotiable" H1 H2 eq_refl)))).
Defined.

(* ===================================================================== *)
(** * Further properties: the merge loop and the handler *)
(* ===================================================================== *)

Section MoreMerge.

Implicit Types C P : list Project.

Lemma appended_absent C P :
  appended C P = List.filter (fun p => bool_decide (title p ∉ titles C)) P.
Proof.
  unfold appended. apply filter_ext. intros p.
  destruct (exists_in C p) eqn:E; simpl; symmetry.
  - apply bool_decide_eq_false. intros Hn. apply Hn.
    by apply exists_in_titles.
  - apply bool_decide_eq_true. intros Hin.
    apply exists_in_titles in Hin. congruence.
Qed.

Lemma filter_length_le {A} (f : A → bool) (l : list A) :
  length (List.filter f l) <= length l.
Proof. induction l as [|a l IH]; simpl; [done|]. destruct (f a); simpl; lia. Qed.

Lemma filter_length_all {A} (f : A → bool) (l : list A) :
  length (List.filter f l) = length l ↔ ∀ a, a ∈ l → f a = true.
Proof.
  induction l as [|a l IH]; simpl.
  - split; [|done]. intros _ a Ha. by apply elem_of_nil in Ha.
  - pose proof (filter_length_le f l) as Hle.
    destruct (f a) eqn:E; simpl.
    + split.
      * intros H b Hb. apply elem_of_cons in Hb as [->|Hb]; [done|].
        apply IH; [lia|done].
      * intros H. f_equal. apply IH. intros b Hb. apply H. by right.
    + split; [lia|]. intros H. specialize (H a ltac:(by left)). congruence.
Qed.

End MoreMerge.

(** X1. The merged catalog is the existing catalog, entry for entry and in
    place, followed by the incoming postings whose titles the existing
    catalog lacks, in the order they came in. *)
Theorem X1_merge_keeps_catalog_then_new (C P : list Project) :
  merge C P
  = C ++ List.filter (fun p => bool_decide (title p ∉ titles C)) P.
Proof. by rewrite merge_appended, appended_absent. Qed.

(** X2. When the titles of the catalog are pairwise distinct and so are
    those of the batch, the titles of the merged catalog are pairwise
    distinct. *)
Theorem X2_distinct_batch_keeps_titles_distinct (C P : list Project) :
  NoDup (titles C) → NoDup (titles P) → NoDup (titles (merge C P)).
Proof. apply merge_NoDup. Qed.

Lemma X2_distinct_batch_keeps_titles_distinct_witness :
  NoDup (titles (projectsCache one_known)) ∧
  NoDup (titles (projects_of (scrape env0))) ∧
  NoDup (titles (merge (projectsCache one_known)
                   (projects_of (scrape env0)))).
Proof.
  assert (H1 : NoDup (titles (projectsCache one_known)))
    by (apply (bool_decide_unpack _); vm_compute; exact I).
  assert (H2 : NoDup (titles (projects_of (scrape env0))))
    by (apply (bool_decide_unpack _); vm_compute; exact I).
  exact (conj H1 (conj H2
           (X2_distinct_batch_keeps_titles_distinct _ _ H1 H2))).
Defined.

(** X3. Merging a batch that was already merged changes nothing, and so
    does merging an empty batch. *)
Theorem X3_merge_again_changes_nothing (C P : list Project) :
  merge (merge C P) P = merge C P ∧ merge C [] = C.
Proof. split; [apply merge_idempotent|done]. Qed.

(** X4. A title is in the merged catalog exactly when it is in the
    catalog or in the batch: no title is lost and none is made up. *)
Theorem X4_merged_titles (C P : list Project) (t : option string) :
  t ∈ titles (merge C P) ↔ t ∈ titles C ∨ t ∈ titles P.
Proof.
  rewrite titles_merge, elem_of_app. split.
  - intros [H|H]; [by left|right].
    apply list_elem_of_fmap in H as (p & -> & Hp).
    apply elem_of_appended in Hp as [Hp _].
    apply list_elem_of_fmap. by exists p.
  - intros [H|H]; [by left|].
    apply list_elem_of_fmap in H as (p & -> & Hp).
    destruct (exists_in C p) eqn:E.
    + left. by apply exists_in_titles.
    + right. apply list_elem_of_fmap. exists p. split; [done|].
      by apply elem_of_appended.
Qed.

(** X5. When the scraper returns, [totalProjects] is the size of the saved
    catalog, which never shrinks; [projectsAdded] is never below its
    growth, and equals it exactly when no incoming title was already in
    the catalog. *)
Theorem X5_response_counts (now sourceName : string)
    (newProjects : list Project) (st : State) :
  let out := scrape_handler now sourceName (Ok newProjects) st in
  let before := length (projectsCache st) in
  ∃ added total,
    out.2 = Json200 true added total sourceName ∧
    total = length (projectsCache out.1) ∧
    before <= total ∧
    total - before <= added ∧
    (added = total - before ↔
     ∀ p, p ∈ newProjects → title p ∉ titles (projectsCache st)).
Proof.
  intros out before.
  destruct (handler_success now sourceName newProjects st) as [Hcat Hres].
  fold out in Hcat, Hres. eexists _, _. split; [exact Hres|].
  rewrite Hcat. unfold before.
  rewrite merge_appended, appended_absent, length_app.
  set (f := fun p => bool_decide (title p ∉ titles (projectsCache st))).
  pose proof (filter_length_le f newProjects) as Hle.
  repeat split; try lia.
  - intros H p Hp.
    assert (E : length (List.filter f newProjects) = length newProjects)
      by lia.
    apply (bool_decide_eq_true_1 (title p ∉ titles (projectsCache st))).
    by apply (proj1 (filter_length_all f newProjects) E).
  - intros H.
    assert (E : length (List.filter f newProjects) = length newProjects).
    { apply filter_length_all. intros p Hp. apply bool_decide_eq_true.
      by apply H. }
    lia.
Qed.

Section MoreHandler.

Lemma spread_active (now : string) (n : nat) (old : gmap string value) :
  ({[ "status" := VStr "active"; "projectCount" := VNum n ]} : gmap string value)
    ∪ ({[ "status" := VStr "scraping"; "lastScrape" := VStr now ]} ∪ old)
  = <[ "status" := VStr "active" ]>
      (<[ "projectCount" := VNum n ]> (<[ "lastScrape" := VStr now ]> old)).
Proof.
  rewrite <- !insert_union_l, <- !insert_union_singleton_l.
  rewrite (insert_insert_ne _ "projectCount" "status") by done.
  by rewrite insert_insert_eq.
Qed.

Lemma spread_error (now : string) (old : gmap string value) :
  ({[ "status" := VStr "error" ]} : gmap string value)
    ∪ ({[ "status" := VStr "scraping"; "lastScrape" := VStr now ]} ∪ old)
  = <[ "status" := VStr "error" ]> (<[ "lastScrape" := VStr now ]> old).
Proof.
  rewrite <- !insert_union_l, <- !insert_union_singleton_l.
  by rewrite insert_insert_eq.
Qed.

Lemma status_of_absent (sourceName : string) (st : State) :
  sourcesCache st !! sourceName = None → sourcesProto st = None →
  status_of sourceName st = ∅.
Proof.
  intros Ho Hp. unfold status_of, read_source. by rewrite Ho, Hp.
Qed.

Lemma update_sets_prototype (sourceName : string)
    (updates : gmap string value) (st : State) :
  sets_prototype sourceName st = true →
  updateSourceStatus sourceName updates st
  = {| projectsCache := projectsCache st;
       sourcesCache := sourcesCache st;
       sourcesProto := Some (updates ∪ status_of sourceName st) |}.
Proof. intros H. unfold updateSourceStatus. by rewrite H. Qed.

End MoreHandler.

(** X6. After a cycle the record the code reads under the source's name is
    the one it read before with [lastScrape] set to the time of the start
    and [status] to [active] or [error]; [projectCount] is set on success
    only.  Under every name but [__proto__] the record is afterwards an
    entry of the table of its own, and what the other names read does not
    change. *)
Theorem X6_status_record_after_cycle (now sourceName : string)
    (scraped : result (list Project)) (st : State) :
  let out := scrape_handler now sourceName scraped st in
  status_of sourceName out.1 =
    match scraped with
    | Ok newProjects =>
        <[ "status" := VStr "active" ]>
          (<[ "projectCount" := VNum (length newProjects) ]>
             (<[ "lastScrape" := VStr now ]> (status_of sourceName st)))
    | Throw _ =>
        <[ "status" := VStr "error" ]>
          (<[ "lastScrape" := VStr now ]> (status_of sourceName st))
    end ∧
  (sourceName ≠ "__proto__" →
   sourcesCache out.1 !! sourceName = Some (status_of sourceName out.1) ∧
   ∀ other, other ≠ sourceName →
     read_source other out.1 = read_source other st).
Proof.
  intros out. unfold out. destruct scraped as [newProjects|error].
  - rewrite handler_success_state.
    rewrite status_of_update, status_of_save, status_of_update by done.
    split; [apply spread_active|]. intros Hn. split.
    + rewrite update_own by done.
      by rewrite status_of_save, status_of_update by done.
    + intros other Ho. rewrite read_update_other by done.
      change (read_source other (saveProjects ?ps ?s))
        with (read_source other s).
      by rewrite read_update_other.
  - rewrite handler_failure_state.
    rewrite !status_of_update by done.
    split; [apply spread_error|]. intros Hn. split.
    + rewrite update_own by done. by rewrite status_of_update.
    + intros other Ho. by rewrite !read_update_other.
Qed.

Lemma X6_status_record_after_cycle_witness :
  "backstage" ≠ "__proto__" ∧
  sourcesCache
    (scrape_handler "2024-01-02T00:00:00.000Z" "backstage" (scrape env0)
       initial_state).1 !! "backstage"
  = Some (status_of "backstage"
            (scrape_handler "2024-01-02T00:00:00.000Z" "backstage"
               (scrape env0) initial_state).1).
Proof.
  assert (H : "backstage" ≠ "__proto__") by discriminate.
  exact (conj H
           (proj1 (proj2 (X6_status_record_after_cycle
                            "2024-01-02T00:00:00.000Z" "backstage"
                            (scrape env0) initial_state) H))).
Defined.

(** X7. A scrape under a name other than [__proto__] that has no record,
    in a table whose prototype was never replaced, and whose scraper cannot
    be run still leaves a record for that name: the state [error] and the
    time of the attempt, and no count. *)
Theorem X7_unknown_source_gets_record (now sourceName : string)
    (error : exn) (st : State) :
  sourceName ≠ "__proto__" →
  sourcesCache st !! sourceName = None → sourcesProto st = None →
  sourcesCache (scrape_handler now sourceName (Throw error) st).1
    !! sourceName
  = Some {[ "status" := VStr "error"; "lastScrape" := VStr now ]}.
Proof.
  intros Hn Hnone Hproto. rewrite handler_failure_state.
  rewrite update_own by done. f_equal.
  rewrite status_of_update by done.
  rewrite (status_of_absent _ _ Hnone Hproto).
  by rewrite (spread_error now ∅), insert_empty.
Qed.

Lemma X7_unknown_source_gets_record_witness :
  "imdb" ≠ "__proto__" ∧
  sourcesCache initial_state !! "imdb" = None ∧
  sourcesProto initial_state = None ∧
  sourcesCache
    (scrape_handler "2024-01-02T00:00:00.000Z" "imdb"
       (Throw (Error "Cannot find module './scrapers/imdb'"))
       initial_state).1 !! "imdb"
  = Some {[ "status" := VStr "error";
            "lastScrape" := VStr "2024-01-02T00:00:00.000Z" ]}.
Proof.
  assert (H : "imdb" ≠ "__proto__") by discriminate.
  exact (conj H (conj eq_refl (conj eq_refl
           (X7_unknown_source_gets_record "2024-01-02T00:00:00.000Z" "imdb"
              (Error "Cannot find module './scrapers/imdb'")
              initial_state H eq_refl eq_refl)))).
Defined.

(** X8. Under names other than [__proto__], two updates of one source's
    status amount to one update with the later fields laid over the
    earlier ones, and updates of two different sources can be made in
    either order. *)
Theorem X8_status_updates_compose (sourceName other : string)
    (u1 u2 : gmap string value) (st : State) :
  sourceName ≠ "__proto__" → other ≠ "__proto__" →
  updateSourceStatus sourceName u2 (updateSourceStatus sourceName u1 st)
  = updateSourceStatus sourceName (u2 ∪ u1) st ∧
  (other ≠ sourceName →
   updateSourceStatus other u2 (updateSourceStatus sourceName u1 st)
   = updateSourceStatus sourceName u1 (updateSourceStatus other u2 st)).
Proof.
  intros Hn Ho.
  assert (Hstep : ∀ n u s, n ≠ "__proto__" →
    updateSourceStatus n u s
    = {| projectsCache := projectsCache s;
         sourcesCache := <[ n := u ∪ status_of n s ]> (sourcesCache s);
         sourcesProto := sourcesProto s |}).
  { intros n u s H. unfold updateSourceStatus.
    by rewrite sets_prototype_name. }
  split.
  - rewrite (Hstep _ u2) by done.
    unfold status_of at 1, read_source at 1.
    rewrite update_own by done. cbn [spread].
    rewrite !Hstep by done. cbn [projectsCache sourcesCache sourcesProto].
    by rewrite insert_insert_eq, (assoc_L (∪)).
  - intros Hne.
    rewrite (Hstep other u2 (updateSourceStatus _ _ _)) by done.
    rewrite (Hstep sourceName u1 (updateSourceStatus _ _ _)) by done.
    unfold status_of.
    rewrite (read_update_other sourceName other) by done.
    rewrite (read_update_other other sourceName) by done.
    rewrite !Hstep by done. cbn [projectsCache sourcesCache sourcesProto].
    f_equal. by apply insert_insert_ne.
Qed.

Lemma X8_status_updates_compose_witness :
  "backstage" ≠ "__proto__" ∧ "mandy" ≠ "__proto__" ∧
  "mandy" ≠ "backstage" ∧
  updateSourceStatus "mandy" {[ "status" := VStr "error" ]}
    (updateSourceStatus "backstage" {[ "status" := VStr "active" ]}
       initial_state)
  = updateSourceStatus "backstage" {[ "status" := VStr "active" ]}
      (updateSourceStatus "mandy" {[ "status" := VStr "error" ]}
         initial_state).
Proof.
  assert (H1 : "backstage" ≠ "__proto__") by discriminate.
  assert (H2 : "mandy" ≠ "__proto__") by discriminate.
  assert (H3 : "mandy" ≠ "backstage") by discriminate.
  exact (conj H1 (conj H2 (conj H3
           (proj2 (X8_status_updates_compose "backstage" "mandy"
                     {[ "status" := VStr "active" ]}
                     {[ "status" := VStr "error" ]} initial_state H1 H2)
              H3)))).
Defined.

(** X20. A scrape under the name [__proto__], in a table that has no entry
    of that name and whose prototype was never replaced, adds no entry to
    the table: the record with the state [error] and the time of the
    attempt becomes the table's prototype.  From then on a name that has no
    entry reads the fields of that record: the name [status] reads the
    string "error", which a later update of that name spreads into its
    five characters. *)
Theorem X20_proto_name_replaces_prototype (now : string) (error : exn)
    (st : State) :
  sourcesCache st !! "__proto__" = None → sourcesProto st = None →
  let out := scrape_handler now "__proto__" (Throw error) st in
  sourcesCache out.1 = sourcesCache st ∧
  sourcesProto out.1
  = Some {[ "status" := VStr "error"; "lastScrape" := VStr now ]} ∧
  (sourcesCache st !! "status" = None →
   read_source "status" out.1 = ReadValue (VStr "error") ∧
   status_of "status" out.1
   = {[ "0" := VStr "e"; "1" := VStr "r"; "2" := VStr "r";
        "3" := VStr "o"; "4" := VStr "r" ]}).
Proof.
  intros Ho Hp out.
  assert (Hout : out.1 = {| projectsCache := projectsCache st;
                            sourcesCache := sourcesCache st;
                            sourcesProto :=
                              Some {[ "status" := VStr "error";
                                      "lastScrape" := VStr now ]} |}).
  { unfold out. rewrite handler_failure_state.
    set (u1 := ({[ "status" := VStr "scraping"; "lastScrape" := VStr now ]}
                 : gmap string value)).
    set (st1 := updateSourceStatus "__proto__" u1 st).
    assert (H1 : sets_prototype "__proto__" st = true).
    { unfold sets_prototype. by rewrite (proj2 (lacks_None _ _) Ho), Hp. }
    assert (Hr1 : status_of "__proto__" st1 = u1 ∪ ∅).
    { unfold st1. rewrite status_of_update by done.
      by rewrite (status_of_absent _ _ Ho Hp). }
    assert (E1 : st1 = {| projectsCache := projectsCache st;
                          sourcesCache := sourcesCache st;
                          sourcesProto := Some (u1 ∪ ∅) |}).
    { unfold st1. rewrite (update_sets_prototype _ _ st H1).
      by rewrite (status_of_absent _ _ Ho Hp). }
    assert (H2 : sets_prototype "__proto__" st1 = true).
    { rewrite E1. unfold sets_prototype. cbn [sourcesCache sourcesProto].
      by rewrite (proj2 (lacks_None _ _) Ho). }
    rewrite (update_sets_prototype _ _ st1 H2), Hr1, E1.
    cbn [projectsCache sourcesCache]. unfold u1.
    by rewrite (spread_error now ∅), insert_empty. }
  rewrite Hout. cbn [sourcesCache sourcesProto]. repeat split.
  - unfold read_source. cbn [sourcesCache sourcesProto]. by rewrite H.
  - unfold status_of, read_source. cbn [sourcesCache sourcesProto].
    by rewrite H.
Qed.

Lemma X20_proto_name_replaces_prototype_witness :
  sourcesCache initial_state !! "__proto__" = None ∧
  sourcesProto initial_state = None ∧
  sourcesCache initial_state !! "status" = None ∧
  read_source "status"
    (scrape_handler "2024-01-02T00:00:00.000Z" "__proto__"
       (Throw (Error "Cannot find module './scrapers/__proto__'"))
       initial_state).1
  = ReadValue (VStr "error").
Proof.
  exact (conj eq_refl (conj eq_refl (conj eq_refl
           (proj1 (proj2 (proj2
              (X20_proto_name_replaces_prototype "2024-01-02T00:00:00.000Z"
                 (Error "Cannot find module './scrapers/__proto__'")
                 initial_state eq_refl eq_refl)) eq_refl))))).
Defined.

(** After a failed scrape under [__proto__] on a fresh server, a failed
    scrape under [status] leaves a record of seven fields: the characters
    of the inherited "error" and the two fields of the failure. *)
Example status_after_proto_has_seven_fields :
  let lost := Error "Scraper not found" in
  let st1 :=
    (scrape_handler "2024-01-02T00:00:00.000Z" "__proto__" (Throw lost)
       initial_state).1 in
  sourcesCache
    (scrape_handler "2024-01-03T00:00:00.000Z" "status" (Throw lost) st1).1
    !! "status"
  = Some {[ "0" := VStr "e"; "1" := VStr "r"; "2" := VStr "r";
            "3" := VStr "o"; "4" := VStr "r"; "status" := VStr "error";
            "lastScrape" := VStr "2024-01-03T00:00:00.000Z" ]}.
Proof. by vm_compute. Qed.

(** Updates under [__proto__] and under [status] cannot be exchanged: made
    after the other, the update of [status] spreads the inherited string;
    made before it, it does not. *)
Example proto_and_status_updates_differ :
  let changed := {[ "status" := VStr "error" ]} : gmap string value in
  let first_field (st : State) :=
    sourcesCache st !! "status" ≫= (λ record, record !! "0") in
  first_field (updateSourceStatus "status" changed
                 (updateSourceStatus "__proto__" changed initial_state))
  = Some (VStr "e") ∧
  first_field (updateSourceStatus "__proto__" changed
                 (updateSourceStatus "status" changed initial_state))
  = None.
Proof. by vm_compute. Qed.

Section MoreStats.

Lemma tier_filter_lengths (projects : list Project) :
  length (List.filter (fun p => String.eqb (tier_text (tier p)) "tier1") projects)
  + length (List.filter (fun p => String.eqb (tier_text (tier p)) "tier2") projects)
  + length (List.filter (fun p => String.eqb (tier_text (tier p)) "tier3") projects)
  + length (List.filter (fun p => String.eqb (tier_text (tier p)) "tier4") projects)
  = length projects.
Proof.
  induction projects as [|p projects IH]; [done|].
  cbn [List.filter]. destruct (tier p); simpl; lia.
Qed.

Lemma needs_count_total (projects : list Project) :
  count_needs "Extreme" projects + count_needs "High" projects
  + count_needs "Medium" projects + count_needs "Low" projects
  = length projects.
Proof.
  unfold count_needs. induction projects as [|p projects IH]; [done|].
  cbn [List.filter]. destruct (vfxNeeds p); simpl; lia.
Qed.

End MoreStats.

(** X9. In the statistics the four tier counts add up to the total number
    of projects, and so do the four counts by VFX needs; a tier route
    asked for anything but the four tier names answers with no project. *)
Theorem X9_stats_counts_add_up (now : string) (st : State) :
  let s := get_stats now st in
  n_tier1 (s_byTier s) + n_tier2 (s_byTier s) + n_tier3 (s_byTier s)
  + n_tier4 (s_byTier s) = s_totalProjects s ∧
  n_extreme (s_byVFXNeeds s) + n_high (s_byVFXNeeds s)
  + n_medium (s_byVFXNeeds s) + n_low (s_byVFXNeeds s) = s_totalProjects s ∧
  ∀ tier_param, (∀ t, tier_text t ≠ tier_param) →
    projects_by_tier tier_param st = [].
Proof.
  simpl. split; [apply tier_filter_lengths|].
  split; [apply needs_count_total|].
  intros tier_param Hno. unfold projects_by_tier.
  induction (getProjects st) as [|p projects IH]; [done|]. simpl.
  by rewrite (proj2 (String.eqb_neq _ _) (Hno (tier p))).
Qed.

Lemma X9_stats_counts_add_up_witness :
  (∀ t, tier_text t ≠ "Tier1") ∧
  projects_by_tier "Tier1" after_first_scrape = [].
Proof.
  assert (H : ∀ t, tier_text t ≠ "Tier1") by (intros []; discriminate).
  exact (conj H
           (proj2 (proj2 (X9_stats_counts_add_up "2024-01-02T00:00:00.000Z"
                            after_first_scrape)) "Tier1" H)).
Defined.

(* ===================================================================== *)
(** * Further properties: the classifier *)
(* ===================================================================== *)

Section Substrings.

Lemma starts_with_spec (s t : string) :
  starts_with s t = true ↔ ∃ post, s = t +:+ post.
Proof.
  revert s. induction t as [|b t IH]; intros s; simpl.
  - split; [|done]. intros _. by exists s.
  - destruct s as [|a s].
    + split; [done|]. intros [post H]. rewrite append_cons in H. discriminate.
    + rewrite andb_true_iff, IH, Ascii.eqb_eq. split.
      * intros [-> [post ->]]. by exists post.
      * intros [post H]. rewrite append_cons in H. injection H as -> ->.
        split; [done|]. by exists post.
Qed.

Lemma includes_spec (s t : string) :
  includes s t = true ↔ ∃ pre post, s = pre +:+ t +:+ post.
Proof.
  induction s as [|a s IH]; cbn [includes]; rewrite orb_true_iff.
  - rewrite starts_with_spec. split.
    + intros [[post H]|H]; [|done]. by exists "", post.
    + intros (pre & post & H). left. exists post.
      destruct pre as [|c pre]; [done|]. rewrite append_cons in H.
      discriminate.
  - rewrite starts_with_spec, IH. split.
    + intros [[post H]|(pre & post & H)].
      * by exists "", post.
      * exists (String a pre), post. by rewrite append_cons, H.
    + intros (pre & post & H). destruct pre as [|c pre].
      * left. by exists post.
      * right. rewrite append_cons in H. injection H as -> ->.
        by exists pre, post.
Qed.

Lemma append_assoc (s t u : string) : (s +:+ t) +:+ u = s +:+ t +:+ u.
Proof.
  induction s as [|c s IH]; [done|]. by rewrite !append_cons, IH.
Qed.

Lemma includes_trans (s t u : string) :
  includes s t = true → includes t u = true → includes s u = true.
Proof.
  rewrite !includes_spec. intros (p1 & q1 & ->) (p2 & q2 & ->).
  exists (p1 +:+ p2), (q2 +:+ q1). by rewrite !append_assoc.
Qed.

Lemma includes_extend (pre s post t : string) :
  includes s t = true → includes (pre +:+ s +:+ post) t = true.
Proof.
  rewrite !includes_spec. intros (p & q & ->).
  exists (pre +:+ p), (q +:+ post). by rewrite !append_assoc.
Qed.

Lemma toLowerCase_app (s t : string) :
  toLowerCase (s +:+ t) = toLowerCase s +:+ toLowerCase t.
Proof.
  induction s as [|c s IH]; [done|]. rewrite append_cons. simpl.
  by rewrite IH.
Qed.

Lemma some_included_spec (keywords : list string) (text : string) :
  some_included keywords text = true ↔
  ∃ kw, kw ∈ keywords ∧ includes text kw = true.
Proof.
  unfold some_included. rewrite existsb_exists.
  by setoid_rewrite list_elem_of_In.
Qed.

Lemma some_included_extend (keywords : list string) (pre s post : string) :
  some_included keywords s = true →
  some_included keywords (pre +:+ s +:+ post) = true.
Proof.
  rewrite !some_included_spec. intros (kw & Hkw & H).
  exists kw. split; [done|]. by apply includes_extend.
Qed.

End Substrings.

Section MoreClassifier.

Lemma classify_total (d : string) (b : option string) :
  ∃ v, classifyVFXNeeds (Some d) b = Ok v.
Proof.
  unfold classifyVFXNeeds.
  repeat (destruct (some_included _ _); [by eexists|]). by eexists.
Qed.

Lemma classify_rank (d : string) (b : option string) (v : VfxNeeds) :
  classifyVFXNeeds (Some d) b = Ok v →
  (some_included extremeKeywords (toLowerCase d) = true → v = Extreme) ∧
  (some_included highKeywords (toLowerCase d) = true → 2 <= needs_rank v) ∧
  (some_included mediumKeywords (toLowerCase d) = true → 1 <= needs_rank v).
Proof.
  unfold classifyVFXNeeds.
  destruct (some_included extremeKeywords _);
    [intros [= <-]; simpl; repeat split; (done || lia)|].
  destruct (some_included highKeywords _);
    [intros [= <-]; simpl; repeat split; (done || lia)|].
  destruct (some_included mediumKeywords _);
    intros [= <-]; simpl; repeat split; (done || lia).
Qed.

Lemma keyword_has_core (kw : string) :
  kw ∈ extremeKeywords ++ highKeywords ++ mediumKeywords →
  some_included core_keywords kw = true.
Proof.
  revert kw. apply Forall_forall. apply (bool_decide_unpack _).
  by vm_compute.
Qed.

Lemma core_is_keyword (core : string) :
  core ∈ core_keywords →
  core ∈ extremeKeywords ++ highKeywords ++ mediumKeywords.
Proof.
  revert core. apply Forall_forall. apply (bool_decide_unpack _).
  by vm_compute.
Qed.

(** Some keyword occurs in a text exactly when a core keyword does. *)
Lemma any_keyword_core (text : string) :
  some_included (extremeKeywords ++ highKeywords ++ mediumKeywords) text
  = some_included core_keywords text.
Proof.
  apply eq_true_iff_eq. rewrite !some_included_spec. split.
  - intros (kw & Hkw & Hin).
    pose proof (keyword_has_core kw Hkw) as Hcore.
    apply some_included_spec in Hcore as (core & Hc & Hinc).
    exists core. split; [done|]. by apply (includes_trans _ kw).
  - intros (core & Hc & Hin). exists core. split; [|done].
    by apply core_is_keyword.
Qed.

Lemma some_included_app (k1 k2 : list string) (text : string) :
  some_included (k1 ++ k2) text
  = some_included k1 text || some_included k2 text.
Proof. unfold some_included. apply existsb_app. Qed.

End MoreClassifier.

(** X10. A description in which a keyword occurs, in any letter case and
    whatever surrounds it, is Extreme if the keyword is an Extreme one, at
    least High if it is a High one and at least Medium if it is a Medium
    one. *)
Theorem X10_keyword_in_any_case (pre mid post kw : string)
    (b : option string) :
  toLowerCase mid = kw →
  ∃ v, classifyVFXNeeds (Some (pre +:+ mid +:+ post)) b = Ok v ∧
       (kw ∈ extremeKeywords → v = Extreme) ∧
       (kw ∈ highKeywords → 2 <= needs_rank v) ∧
       (kw ∈ mediumKeywords → 1 <= needs_rank v).
Proof.
  intros Hmid.
  destruct (classify_total (pre +:+ mid +:+ post) b) as [v Hv].
  exists v. split; [done|].
  destruct (classify_rank _ _ _ Hv) as (He & Hh & Hm).
  assert (Hin : includes (toLowerCase (pre +:+ mid +:+ post)) kw = true).
  { rewrite !toLowerCase_app, Hmid. apply includes_spec. by eexists _, _. }
  repeat split; intros Hkw; [apply He|apply Hh|apply Hm];
    apply some_included_spec; by exists kw.
Qed.

Lemma X10_keyword_in_any_case_witness :
  toLowerCase "Green Screen" = "green screen" ∧
  ∃ v, classifyVFXNeeds (Some ("Two days of " +:+ "Green Screen" +:+ " work"))
         None = Ok v ∧
       ("green screen" ∈ extremeKeywords → v = Extreme) ∧
       ("green screen" ∈ highKeywords → 2 <= needs_rank v) ∧
       ("green screen" ∈ mediumKeywords → 1 <= needs_rank v).
Proof.
  exact (conj eq_refl
           (X10_keyword_in_any_case "Two days of " "Green Screen" " work"
              "green screen" None eq_refl)).
Defined.

(** X11. Adding text before or after a description never lowers its
    level. *)
Theorem X11_more_text_never_lowers (pre d post : string)
    (b b' : option string) :
  ∃ v v', classifyVFXNeeds (Some d) b = Ok v ∧
          classifyVFXNeeds (Some (pre +:+ d +:+ post)) b' = Ok v' ∧
          needs_rank v <= needs_rank v'.
Proof.
  destruct (classify_total (pre +:+ d +:+ post) b') as [v' Hv'].
  destruct (classify_rank _ _ _ Hv') as (He & Hh & Hm).
  rewrite !toLowerCase_app in He, Hh, Hm.
  unfold classifyVFXNeeds in *.
  destruct (some_included extremeKeywords (toLowerCase d)) eqn:E1.
  { eexists _, v'. repeat split; [done|].
    rewrite He by (by apply some_included_extend). done. }
  destruct (some_included highKeywords (toLowerCase d)) eqn:E2.
  { eexists _, v'. repeat split; [done|]. simpl.
    apply Hh. by apply some_included_extend. }
  destruct (some_included mediumKeywords (toLowerCase d)) eqn:E3.
  { eexists _, v'. repeat split; [done|]. simpl.
    apply Hm. by apply some_included_extend. }
  eexists _, v'. repeat split; [done|]. simpl. lia.
Qed.

(** X12. A description is Low exactly when, lower-cased, it contains none
    of "vfx", "cgi", "green screen", "500+ shots", "creature work",
    "compositing", "200+ shots", "post production" and "effects": every
    other keyword contains one of these. *)
Theorem X12_low_means_no_core_keyword (d : string) (b : option string) :
  classifyVFXNeeds (Some d) b = Ok Low ↔
  some_included core_keywords (toLowerCase d) = false.
Proof.
  rewrite <- any_keyword_core, !some_included_app.
  unfold classifyVFXNeeds.
  destruct (some_included extremeKeywords _); [done|].
  destruct (some_included highKeywords _); [done|].
  by destruct (some_included mediumKeywords _).
Qed.

Section MoreScrape.

Lemma process_listings_ok (env : Env) (items : list Listing) (i : nat)
    (acc : list Project) :
  (∀ item, item ∈ items → l_description item ≠ None) →
  ∃ built,
    process_listings env i items acc = Ok (acc ++ built) ∧
    length built = length items ∧
    ∀ k item, items !! k = Some item →
      ∃ p, built !! k = Some p ∧ process_item env (i + k) item = Ok p.
Proof.
  revert i acc. induction items as [|item items IH]; intros i acc Hall.
  - exists []. simpl. rewrite app_nil_r. repeat split. intros k item H.
    by rewrite lookup_nil in H.
  - simpl. destruct (process_item_total env i item) as [[p Hp]|Hp].
    + destruct (IH (S i) (acc ++ [p])) as (built & Hrun & Hlen & Hat).
      { intros it Hit. apply Hall. by right. }
      exists (p :: built). rewrite Hp. simpl.
      rewrite Hrun, <- app_assoc. simpl. repeat split; [by rewrite Hlen|].
      intros [|k] it Hk; simpl in Hk.
      * injection Hk as <-. exists p. by rewrite Nat.add_0_r.
      * destruct (Hat k it Hk) as (q & Hq & Hbuilt). exists q.
        split; [done|]. by rewrite Nat.add_succ_r.
    + exfalso. apply (Hall item); [by left|].
      unfold process_item in Hp.
      destruct (l_description item) as [d|]; [|done].
      destruct (classify_total d (l_budget item)) as [v Hv].
      rewrite Hv in Hp. discriminate.
Qed.

End MoreScrape.

(** X13. When every listing has a description, [scrape] builds one project
    per listing, in the order of the listings: project [i] carries the
    title, the budget and the description of listing [i], the tier of its
    budget, the level of its description, and the [i]-th temporary id and
    time. *)
Theorem X13_one_project_per_listing (env : Env) (items : list Listing) :
  (∀ item, item ∈ items → l_description item ≠ None) →
  ∃ projects,
    scrape_listings env items = Ok projects ∧
    length projects = length items ∧
    ∀ i item, items !! i = Some item →
      ∃ p, projects !! i = Some p ∧
           title p = l_title item ∧
           budget p = l_budget item ∧
           description p = l_description item ∧
           tier p = determineTier (l_budget item) ∧
           classifyVFXNeeds (l_description item) (l_budget item)
           = Ok (vfxNeeds p) ∧
           id p = temp_id env i ∧
           scrapedAt p = scraped_at env i.
Proof.
  intros Hall.
  destruct (process_listings_ok env items 0 [] Hall)
    as (built & Hrun & Hlen & Hat).
  exists built. unfold scrape_listings. rewrite Hrun. simpl.
  repeat split; [done|]. intros i item Hi.
  destruct (Hat i item Hi) as (p & Hp & Hbuilt). exists p.
  split; [done|]. simpl in Hbuilt. unfold process_item in Hbuilt.
  destruct (classifyVFXNeeds (l_description item) (l_budget item))
    as [v|e]; [|done].
  simpl in Hbuilt. injection Hbuilt as <-. by simpl.
Qed.

Lemma X13_one_project_per_listing_witness :
  (∀ item, item ∈ mockData env0 → l_description item ≠ None) ∧
  ∃ projects,
    scrape_listings env0 (mockData env0) = Ok projects ∧
    length projects = length (mockData env0) ∧
    ∀ i item, mockData env0 !! i = Some item →
      ∃ p, projects !! i = Some p ∧
           title p = l_title item ∧
           budget p = l_budget item ∧
           description p = l_description item ∧
           tier p = determineTier (l_budget item) ∧
           classifyVFXNeeds (l_description item) (l_budget item)
           = Ok (vfxNeeds p) ∧
           id p = temp_id env0 i ∧
           scrapedAt p = scraped_at env0 i.
Proof.
  assert (H : ∀ item, item ∈ mockData env0 → l_description item ≠ None).
  { apply Forall_forall. repeat constructor; discriminate. }
  exact (conj H (X13_one_project_per_listing env0 (mockData env0) H)).
Defined.

(* ===================================================================== *)
(** * Further properties: budgets *)
(* ===================================================================== *)

Section MoreTiers.

Lemma ends_number_cases (t : string) :
  ends_number t = true →
  span_digits t = ("", t) ∧ exponent_part t = 0%Z ∧
  (match t with
   | String c r => if Ascii.eqb c "." then span_digits r else ("", t)
   | EmptyString => ("", t)
   end) = ("", t).
Proof.
  destruct t as [|c t]; [done|]. simpl. intros H.
  apply negb_true_iff in H.
  apply orb_false_iff in H as [H HE].
  apply orb_false_iff in H as [H He].
  apply orb_false_iff in H as [Hd Hp].
  by rewrite Hd, Hp, He, HE.
Qed.

(** [parseFloat] of a string of digits followed by anything that does not
    continue the number. *)
Lemma parseFloat_digits_then (ds tail : string) :
  all_chars is_digit ds = true → ds ≠ "" → ends_number tail = true →
  parseFloat (ds +:+ tail) = round64 (inject_Z (digits_value 0 ds)).
Proof.
  intros Hds Hne Htail. unfold parseFloat.
  destruct (ends_number_cases tail Htail) as (Hspan & Hex & Hfrac).
  destruct ds as [|c ds]; [done|]. simpl in Hds.
  apply andb_true_iff in Hds as [Hc Hds].
  destruct (digit_facts c Hc) as (Hsp & Hplus & Hminus & _ & _ & HI & _).
  rewrite append_cons. simpl trim_start. rewrite Hsp.
  unfold take_sign. rewrite Hplus, Hminus.
  simpl starts_with. rewrite HI. simpl andb. cbv iota.
  rewrite <- append_cons.
  rewrite (span_digits_all (String c ds) tail);
    [|by simpl; rewrite Hc|done].
  rewrite Hfrac, append_empty, Hex. simpl String.length. simpl Z.sub.
  change (inject_Z 10 ^ 0)%Q with 1%Q.
  unfold Qmult. simpl Qnum. simpl Qden. by rewrite Z.mul_1_r.
Qed.

Lemma includes_M_app (s t : string) :
  includes (s +:+ t) "M" = includes s "M" || includes t "M".
Proof.
  induction s as [|c s IH].
  - rewrite append_nil. by destruct t.
  - rewrite append_cons. simpl in *. rewrite IH.
    by destruct (Ascii.eqb c "M").
Qed.

(** The tier of a budget that starts with [$] and an amount, whatever
    follows the amount without continuing its number. *)
Lemma amount_then_tail_tier (a tail : string) :
  is_amount a = true →
  ends_number (remove_chars dollar_comma_K tail) = true →
  determineTier (Some ("$" +:+ a +:+ tail))
  = tier_at (amount_value a * (if includes tail "M" then 1000 else 1)).
Proof.
  intros Ha Htail. apply andb_true_iff in Ha as [Hall Hany].
  destruct (strip_amount a Hall) as [Hstrip HM].
  rewrite determineTier_amount by (rewrite append_cons; discriminate).
  assert (Hamount :
    amount ("$" +:+ a +:+ tail)
    = mul (round64 (inject_Z (amount_value a)))
          (Fin (inject_Z (if includes tail "M" then 1000 else 1)))).
  { unfold amount. f_equal.
    - rewrite append_cons, append_nil. simpl remove_chars.
      rewrite remove_chars_app, Hstrip.
      apply parseFloat_digits_then;
        [apply keep_digits_all|by apply keep_digits_nonempty|done].
    - rewrite append_cons, append_nil.
      change (includes (String "$" (a +:+ tail)) "M")
        with (includes (a +:+ tail) "M").
      rewrite includes_M_app, HM. simpl.
      by destruct (includes tail "M"). }
  rewrite Hamount.
  pose proof (amount_value_nonneg a) as Hv.
  assert (Hf : (0 < (if includes tail "M" then 1000 else 1))%Z)
    by (by destruct (includes tail "M")).
  change (Fin 10000) with (Fin (inject_Z 10000)).
  change (Fin 1000) with (Fin (inject_Z 1000)).
  change (Fin 100) with (Fin (inject_Z 100)).
  rewrite !integer_amount_ge by done. reflexivity.
Qed.

End MoreTiers.

(** X14. For a budget that is [$], an amount and then any text that,
    stripped of [$], commas and [K], does not continue the number, the tier
    is that of the amount counted in thousands, and in millions when the
    letter [M] occurs anywhere in that text.  So "$50,000" is read as fifty
    thousand thousands, "$80k" as "$80K", and of a range only the lower end
    is read. *)
Theorem X14_tier_reads_leading_amount (a tail : string) :
  is_amount a = true →
  ends_number (remove_chars dollar_comma_K tail) = true →
  determineTier (Some ("$" +:+ a +:+ tail))
  = tier_at (amount_value a * (if includes tail "M" then 1000 else 1)).
Proof. apply amount_then_tail_tier. Qed.

Lemma X14_tier_reads_leading_amount_witness :
  is_amount "250" = true ∧
  ends_number (remove_chars dollar_comma_K "K-500K") = true ∧
  determineTier (Some ("$" +:+ "250" +:+ "K-500K")) = tier3.
Proof.
  exact (conj eq_refl (conj eq_refl
           (X14_tier_reads_leading_amount "250" "K-500K" eq_refl eq_refl))).
Defined.

Section Extraction.

Ltac each_char c := destruct c as [[] [] [] [] [] [] [] []].

Lemma first_match_skip {A} (here : string → option A) (f : ascii → bool)
    (pre rest : string) :
  (∀ c s, f c = true → here (String c s) = None) →
  all_chars f pre = true →
  first_match here (pre +:+ rest) = first_match here rest.
Proof.
  intros Hfail. induction pre as [|c pre IH]; [done|].
  intros H. simpl in H. apply andb_true_iff in H as [Hc Hpre].
  rewrite append_cons. cbn [first_match]. rewrite (Hfail c _ Hc).
  by apply IH.
Qed.

Lemma first_match_none {A} (here : string → option A) (f : ascii → bool)
    (s : string) :
  (∀ c s, f c = true → here (String c s) = None) → here "" = None →
  all_chars f s = true → first_match here s = None.
Proof.
  intros Hfail Hnil. induction s as [|c s IH]; simpl; [by rewrite Hnil|].
  intros H. apply andb_true_iff in H as [Hc Hs].
  rewrite (Hfail c _ Hc). by apply IH.
Qed.

Lemma first_match_some {A} (here : string → option A) (s : string) (m : A) :
  first_match here s = Some m → ∃ t, here t = Some m.
Proof.
  induction s as [|c s IH]; cbn [first_match].
  - destruct (here "") eqn:E; [|done]. intros [= <-]. by exists "".
  - destruct (here (String c s)) eqn:E; [|done].
    intros [= <-]. by eexists.
Qed.

Lemma none_is_all_not (f : ascii → bool) (s : string) :
  any_char f s = false → all_chars (fun c => negb (f c)) s = true.
Proof.
  induction s as [|c s IH]; simpl; [done|]. intros H.
  apply orb_false_iff in H as [Hc Hs]. by rewrite Hc, IH.
Qed.

Lemma budget_here_not_dollar (c : ascii) (s : string) :
  negb (is_dollar c) = true → budget_here (String c s) = None.
Proof.
  unfold is_dollar, budget_here. intros H. apply negb_true_iff in H.
  by rewrite H.
Qed.

Lemma range_here_not_digit (c : ascii) (s : string) :
  negb (is_digit c) = true → range_here (String c s) = None.
Proof.
  unfold range_here. simpl. intros H. apply negb_true_iff in H.
  by rewrite H.
Qed.

Lemma span_chars_all (f : ascii → bool) (run rest : string) :
  all_chars f run = true →
  match rest with String c _ => f c = false | EmptyString => True end →
  span_chars f (run +:+ rest) = (run, rest).
Proof.
  intros Hrun Hrest. induction run as [|c run IH].
  - rewrite append_nil. destruct rest as [|c rest]; [done|]. simpl.
    by rewrite Hrest.
  - simpl in Hrun. apply andb_true_iff in Hrun as [Hc Hrun].
    rewrite append_cons. simpl. by rewrite Hc, IH.
Qed.

Lemma span_chars_prefix (f : ascii → bool) (s run rest : string) :
  span_chars f s = (run, rest) → all_chars f run = true.
Proof.
  revert run rest. induction s as [|c s IH]; simpl; intros run rest.
  - by intros [= <- <-].
  - destruct (f c) eqn:E; [|by intros [= <- <-]].
    destruct (span_chars f s) as [d t]. intros [= <- <-]. simpl.
    rewrite E. by apply (IH d t).
Qed.

Lemma span_digits_prefix (s run rest : string) :
  span_digits s = (run, rest) → all_chars is_digit run = true.
Proof.
  revert run rest. induction s as [|c s IH]; simpl; intros run rest.
  - by intros [= <- <-].
  - destruct (is_digit c) eqn:E; [|by intros [= <- <-]].
    destruct (span_digits s) as [d t]. intros [= <- <-]. simpl.
    rewrite E. by apply (IH d t).
Qed.

Lemma K_M_k_facts (c : ascii) :
  K_M_k c = true →
  digit_or_comma c = false ∧
  ends_number (remove_chars dollar_comma_K (String c "")) = true ∧
  includes (String c "") "M" = Ascii.eqb c "M".
Proof. each_char c; intros H; try discriminate H; by vm_compute. Qed.

Lemma space_facts (c : ascii) :
  is_space c = true →
  is_digit c = false ∧ (Ascii.eqb c "k" || Ascii.eqb c "K") = false ∧
  Ascii.eqb c "-" = false.
Proof. each_char c; intros H; try discriminate H; by vm_compute. Qed.

Lemma digit_more_facts (c : ascii) :
  is_digit c = true →
  digit_or_comma c = true ∧ negb (is_digit c) = false ∧
  (Ascii.eqb c "k" || Ascii.eqb c "K") = false ∧ Ascii.eqb c "-" = false ∧
  Ascii.eqb c "M" = false ∧ dollar_comma_K c = false.
Proof. each_char c; intros H; try discriminate H; by vm_compute. Qed.

Lemma trim_start_spaces (ws rest : string) :
  all_chars is_space ws = true →
  match rest with String c _ => is_space c = false | EmptyString => True end →
  trim_start (ws +:+ rest) = rest.
Proof.
  intros Hws Hrest. induction ws as [|c ws IH].
  - rewrite append_nil. destruct rest as [|c rest]; [done|]. simpl.
    by rewrite Hrest.
  - simpl in Hws. apply andb_true_iff in Hws as [Hc Hws].
    rewrite append_cons. simpl. rewrite Hc. by apply IH.
Qed.

Lemma keep_digits_id (ds : string) :
  all_chars is_digit ds = true → keep_digits ds = ds.
Proof.
  unfold keep_digits. induction ds as [|c ds IH]; simpl; [done|].
  intros H. apply andb_true_iff in H as [Hc Hds]. rewrite Hc. simpl.
  by rewrite IH.
Qed.

Lemma digits_are_amount (ds : string) :
  all_chars is_digit ds = true → ds ≠ "" → is_amount ds = true.
Proof.
  intros Hds Hne. unfold is_amount. apply andb_true_iff. split.
  - clear Hne. induction ds as [|c ds IH]; simpl in *; [done|].
    apply andb_true_iff in Hds as [Hc Hds].
    rewrite IH by done. unfold is_digit_or_comma. by rewrite Hc.
  - destruct ds as [|c ds]; [done|]. simpl in *.
    apply andb_true_iff in Hds as [Hc _]. by rewrite Hc.
Qed.

Lemma digits_no_M (ds : string) :
  all_chars is_digit ds = true → includes ds "M" = false.
Proof.
  induction ds as [|c ds IH]; simpl; [done|]. intros H.
  apply andb_true_iff in H as [Hc Hds].
  destruct (digit_more_facts c Hc) as (_ & _ & _ & _ & HM & _).
  by rewrite HM, IH.
Qed.

End Extraction.

Section MoreExtraction.

Lemma budget_here_match (a sfx post : string) :
  all_chars digit_or_comma a = true → a ≠ "" →
  budget_suffix sfx post = true →
  budget_here ("$" +:+ a +:+ sfx +:+ post) = Some ("$" +:+ a +:+ sfx).
Proof.
  intros Ha Hne Hsfx. rewrite append_cons, append_nil.
  unfold budget_here. change (Ascii.eqb "$" "$") with true. cbv iota.
  assert (Hspan : span_chars digit_or_comma (a +:+ sfx +:+ post)
                  = (a, sfx +:+ post)).
  { apply span_chars_all; [done|].
    destruct sfx as [|c [|c' sfx]]; [| |done].
    - rewrite append_nil. destruct post as [|d post]; [done|].
      simpl in Hsfx. apply negb_true_iff, orb_false_iff in Hsfx. tauto.
    - rewrite append_cons. simpl in Hsfx.
      by destruct (K_M_k_facts c Hsfx) as [? _]. }
  rewrite Hspan. destruct a as [|d a]; [done|]. f_equal.
  rewrite (append_cons "$" ""), !append_nil. f_equal. f_equal.
  destruct sfx as [|c [|c' sfx]]; [| |done].
  - rewrite append_nil. destruct post as [|e post]; [done|].
    simpl in Hsfx. apply negb_true_iff, orb_false_iff in Hsfx.
    destruct Hsfx as [_ Hk]. by rewrite Hk.
  - rewrite append_cons. simpl in Hsfx. by rewrite Hsfx.
Qed.

Lemma first_match_here {A} (here : string → option A) (s : string) (m : A) :
  here s = Some m → first_match here s = Some m.
Proof. intros H. destruct s; simpl; by rewrite H. Qed.

Lemma span_digits_stop (t : string) :
  ends_digits t = true → span_digits t = ("", t).
Proof.
  destruct t as [|c t]; [done|]. simpl. intros H.
  apply negb_true_iff in H. by rewrite H.
Qed.

Lemma range_here_match (lo k ws1 ws2 hi post : string) :
  all_chars is_digit lo = true → lo ≠ "" →
  all_chars is_digit hi = true → hi ≠ "" →
  k = "" ∨ k = "k" ∨ k = "K" →
  all_chars is_space ws1 = true → all_chars is_space ws2 = true →
  ends_digits post = true →
  range_here (lo +:+ k +:+ ws1 +:+ "-" +:+ ws2 +:+ hi +:+ post)
  = Some (lo, hi).
Proof.
  intros Hlo Hlo' Hhi Hhi' Hk Hws1 Hws2 Hpost. unfold range_here.
  set (after := ws2 +:+ hi +:+ post).
  assert (Hdash : ∀ r, trim_start (ws1 +:+ "-" +:+ r) = String "-" r).
  { intros r. rewrite trim_start_spaces; [by rewrite append_cons|done|].
    by rewrite append_cons. }
  assert (Hws_head : ∀ r,
    (ends_digits (ws1 +:+ "-" +:+ r) = true ∧
     skip_k (ws1 +:+ "-" +:+ r) = ws1 +:+ "-" +:+ r)).
  { intros r. destruct ws1 as [|c ws1].
    - rewrite append_nil, append_cons. by split.
    - rewrite append_cons. simpl in Hws1.
      apply andb_true_iff in Hws1 as [Hc _].
      destruct (space_facts c Hc) as (Hd & Hkk & _). simpl.
      by rewrite Hd, Hkk. }
  assert (Hstop : ends_digits (k +:+ ws1 +:+ "-" +:+ after) = true ∧
                  trim_start (skip_k (k +:+ ws1 +:+ "-" +:+ after))
                  = String "-" after).
  { destruct (Hws_head after) as [He Hs].
    destruct Hk as [->|[->| ->]].
    - rewrite append_nil, Hs. split; [done|apply Hdash].
    - rewrite append_cons, append_nil. split; [done|apply Hdash].
    - rewrite append_cons, append_nil. split; [done|apply Hdash]. }
  destruct Hstop as [Hstop Htrim].
  rewrite (span_digits_all lo _ Hlo (span_digits_stop _ Hstop)).
  destruct lo as [|c lo]; [done|].
  rewrite Htrim. change (Ascii.eqb "-" "-") with true. cbv iota.
  assert (Hafter : trim_start after = hi +:+ post).
  { unfold after. apply trim_start_spaces; [done|].
    destruct hi as [|d hi]; [done|]. rewrite append_cons.
    simpl in Hhi. apply andb_true_iff in Hhi as [Hd _].
    by destruct (digit_facts d Hd) as [? _]. }
  rewrite Hafter.
  rewrite (span_digits_all hi post Hhi (span_digits_stop _ Hpost)).
  by destruct hi.
Qed.

End MoreExtraction.

(** X15. In a text without a [$] before it, a budget written as [$], an
    amount and an optional [K], [M] or [k] is extracted as it stands, and
    its tier is that of the amount counted in thousands, or in millions
    with [M]. *)
Theorem X15_dollar_budget_extracted (pre a sfx post : string) :
  any_char is_dollar pre = false → is_amount a = true →
  budget_suffix sfx post = true →
  extractBudget (pre +:+ "$" +:+ a +:+ sfx +:+ post) = "$" +:+ a +:+ sfx ∧
  determineTier (Some (extractBudget (pre +:+ "$" +:+ a +:+ sfx +:+ post)))
  = tier_at (amount_value a * (if includes sfx "M" then 1000 else 1)).
Proof.
  intros Hpre Ha Hsfx.
  assert (Hex : extractBudget (pre +:+ "$" +:+ a +:+ sfx +:+ post)
                = "$" +:+ a +:+ sfx).
  { unfold extractBudget.
    rewrite (first_match_skip budget_here (fun c => negb (is_dollar c)))
      by (by apply budget_here_not_dollar || by apply none_is_all_not).
    apply andb_true_iff in Ha as [Hall Hany].
    rewrite (first_match_here _ _ ("$" +:+ a +:+ sfx)); [done|].
    apply budget_here_match; [done| |done].
    intros ->. discriminate Hany. }
  split; [done|]. rewrite Hex. apply amount_then_tail_tier; [done|].
  destruct sfx as [|c [|c' sfx]]; [done| |done].
  simpl in Hsfx. by destruct (K_M_k_facts c Hsfx) as (_ & ? & _).
Qed.

Lemma X15_dollar_budget_extracted_witness :
  any_char is_dollar "Budget: " = false ∧ is_amount "1,500" = true ∧
  budget_suffix "K" " all in" = true ∧
  extractBudget ("Budget: " +:+ "$" +:+ "1,500" +:+ "K" +:+ " all in")
  = "$" +:+ "1,500" +:+ "K".
Proof.
  exact (conj eq_refl (conj eq_refl (conj eq_refl
           (proj1 (X15_dollar_budget_extracted "Budget: " "1,500" "K"
                     " all in" eq_refl eq_refl eq_refl))))).
Defined.

(** X16. In a text without any [$], a range of two numbers around a
    hyphen, the first one optionally followed by [k] or [K] and with white
    space allowed around the hyphen, is extracted as [$<lo>K-<hi>K] when no
    digit comes before it, whatever unit the text gave or left out; its
    tier is that of the lower number counted in thousands. *)
Theorem X16_range_extracted (pre lo k ws1 ws2 hi post : string) :
  let text := pre +:+ lo +:+ k +:+ ws1 +:+ "-" +:+ ws2 +:+ hi +:+ post in
  any_char is_dollar text = false → any_char is_digit pre = false →
  all_chars is_digit lo = true → lo ≠ "" →
  all_chars is_digit hi = true → hi ≠ "" →
  k = "" ∨ k = "k" ∨ k = "K" →
  all_chars is_space ws1 = true → all_chars is_space ws2 = true →
  ends_digits post = true →
  extractBudget text = "$" +:+ lo +:+ "K-" +:+ hi +:+ "K" ∧
  determineTier (Some (extractBudget text)) = tier_at (digits_value 0 lo).
Proof.
  intros text Hdollar Hpre Hlo Hlo' Hhi Hhi' Hk Hws1 Hws2 Hpost.
  assert (Hex : extractBudget text = "$" +:+ lo +:+ "K-" +:+ hi +:+ "K").
  { unfold extractBudget.
    rewrite (first_match_none budget_here (fun c => negb (is_dollar c)))
      by (by apply budget_here_not_dollar || done || by apply none_is_all_not).
    unfold text.
    rewrite (first_match_skip range_here (fun c => negb (is_digit c)))
      by (by apply range_here_not_digit || by apply none_is_all_not).
    by rewrite (first_match_here _ _ (lo, hi))
      by (by apply range_here_match). }
  split; [done|]. rewrite Hex.
  rewrite amount_then_tail_tier.
  - unfold amount_value. rewrite keep_digits_id by done.
    rewrite !includes_M_app, (digits_no_M hi Hhi). simpl.
    by rewrite Z.mul_1_r.
  - by apply digits_are_amount.
  - by rewrite append_cons.
Qed.

Lemma X16_range_extracted_witness :
  any_char is_dollar
    ("around " +:+ "250" +:+ "k" +:+ " " +:+ "-" +:+ " " +:+ "500" +:+
     "k for post") = false ∧
  any_char is_digit "around " = false ∧
  all_chars is_digit "250" = true ∧ "250" ≠ "" ∧
  all_chars is_digit "500" = true ∧ "500" ≠ "" ∧
  ("k" = "" ∨ "k" = "k" ∨ "k" = "K") ∧
  all_chars is_space " " = true ∧ ends_digits "k for post" = true ∧
  extractBudget "around 250k - 500k for post" = "$250K-500K" ∧
  determineTier (Some (extractBudget "around 250k - 500k for post")) = tier3.
Proof.
  assert (H1 : "250" ≠ "") by discriminate.
  assert (H2 : "500" ≠ "") by discriminate.
  assert (H3 : "k" = "" ∨ "k" = "k" ∨ "k" = "K") by (right; left; reflexivity).
  exact (conj eq_refl (conj eq_refl (conj eq_refl (conj H1 (conj eq_refl
           (conj H2 (conj H3 (conj eq_refl (conj eq_refl
             (X16_range_extracted "around " "250" "k" " " " " "500"
                "k for post" eq_refl eq_refl eq_refl H1 eq_refl H2 H3
                eq_refl eq_refl eq_refl)))))))))).
Defined.

(** X17. A text with no [$] and no digit has the budget "TBD", and with it
    tier3. *)
Theorem X17_no_amount_is_TBD (text : string) :
  any_char is_dollar text = false → any_char is_digit text = false →
  extractBudget text = "TBD" ∧
  determineTier (Some (extractBudget text)) = tier3.
Proof.
  intros Hdollar Hdigit.
  assert (Hex : extractBudget text = "TBD").
  { unfold extractBudget.
    rewrite (first_match_none budget_here (fun c => negb (is_dollar c)))
      by (by apply budget_here_not_dollar || done || by apply none_is_all_not).
    by rewrite (first_match_none range_here (fun c => negb (is_digit c)))
      by (by apply range_here_not_digit || done || by apply none_is_all_not). }
  by rewrite Hex.
Qed.

Lemma X17_no_amount_is_TBD_witness :
  any_char is_dollar "budget to be discussed" = false ∧
  any_char is_digit "budget to be discussed" = false ∧
  extractBudget "budget to be discussed" = "TBD".
Proof.
  exact (conj eq_refl (conj eq_refl
           (proj1 (X17_no_amount_is_TBD "budget to be discussed"
                     eq_refl eq_refl)))).
Defined.

(** X18. Whatever the text, the extracted budget is "TBD" or starts with
    [$] and a digit or a comma: it is never empty, so [determineTier] never
    takes it for an absent budget. *)
Theorem X18_extracted_budget_shape (text : string) :
  extractBudget text = "TBD" ∨
  ∃ c rest, extractBudget text = String "$" (String c rest) ∧
            digit_or_comma c = true.
Proof.
  unfold extractBudget.
  destruct (first_match budget_here text) as [m|] eqn:Hb.
  - right. apply first_match_some in Hb as [t Ht].
    unfold budget_here in Ht. destruct t as [|d t]; [done|].
    destruct (Ascii.eqb d "$"); [|done].
    destruct (span_chars digit_or_comma t) as [run rest] eqn:Hspan.
    apply span_chars_prefix in Hspan.
    destruct run as [|c run]; [done|]. injection Ht as <-.
    simpl in Hspan. apply andb_true_iff in Hspan as [Hc _].
    eexists c, _. split; [|done].
    by rewrite (append_cons "$" ""), append_nil, append_cons.
  - destruct (first_match range_here text) as [[lo hi]|] eqn:Hr; [|by left].
    right. apply first_match_some in Hr as [t Ht].
    unfold range_here in Ht.
    destruct (span_digits t) as [lo' r] eqn:Hspan.
    apply span_digits_prefix in Hspan.
    destruct lo' as [|c lo']; [done|].
    destruct (trim_start (skip_k r)) as [|e r']; [done|].
    destruct (Ascii.eqb e "-"); [|done].
    destruct (span_digits (trim_start r')) as [hi' r''].
    destruct hi'; [done|]. injection Ht as <- <-.
    simpl in Hspan. apply andb_true_iff in Hspan as [Hc _].
    eexists c, _. split.
    + by rewrite (append_cons "$" ""), append_nil, append_cons.
    + unfold digit_or_comma. by rewrite Hc.
Qed.

(** X19. No cycle removes or changes an entry of the catalog: after it the
    catalog is the old one followed by postings the scraper returned in
    this cycle, and by none when the scraper threw. *)
Theorem X19_catalog_only_grows (now sourceName : string)
    (scraped : result (list Project)) (st : State) :
  let out := scrape_handler now sourceName scraped st in
  ∃ added,
    projectsCache out.1 = projectsCache st ++ added ∧
    ∀ p, p ∈ added → ∃ newProjects, scraped = Ok newProjects ∧ p ∈ newProjects.
Proof.
  intros out. unfold out. destruct scraped as [newProjects|error].
  - exists (appended (projectsCache st) newProjects).
    rewrite (proj1 (handler_success now sourceName newProjects st)).
    split; [apply merge_appended|]. intros p Hp.
    apply elem_of_appended in Hp as [Hp _]. by exists newProjects.
  - exists []. rewrite (proj1 (handler_failure now sourceName error st)).
    rewrite app_nil_r. split; [done|]. intros p Hp.
    by apply elem_of_nil in Hp.
Qed.

(* ===================================================================== *)
(** * Decimal amounts *)
(* ===================================================================== *)

Section Monotone.

Lemma round_even_mono (x y : Q) :
  (x <= y)%Q → (round_even x <= round_even y)%Z.
Proof.
  intros Hxy. pose proof (Qfloor_resp_le x y Hxy) as Hfl.
  pose proof (round_even_floor y) as Hy.
  assert (Hx : (round_even x <= Qfloor x + 1)%Z).
  { unfold round_even.
    destruct (x - inject_Z (Qfloor x) ?= 1 # 2)%Q;
      [destruct (Z.even _)| |]; lia. }
  destruct (Z.eq_dec (Qfloor x) (Qfloor y)) as [E|NE]; [|lia].
  unfold round_even. rewrite <- E.
  destruct (x - inject_Z (Qfloor x) ?= 1 # 2)%Q eqn:Cx;
    destruct (y - inject_Z (Qfloor x) ?= 1 # 2)%Q eqn:Cy;
    try (destruct (Z.even (Qfloor x))); try lia; exfalso;
    repeat match goal with
      | H : (_ ?= _)%Q = Eq |- _ => apply (proj2 (Qeq_alt _ _)) in H
      | H : (_ ?= _)%Q = Lt |- _ => apply (proj2 (Qlt_alt _ _)) in H
      | H : (_ ?= _)%Q = Gt |- _ => apply (proj2 (Qgt_alt _ _)) in H
      end; lra.
Qed.

Lemma round64_pos_rounded (q : Q) :
  round64_pos q
  = if Qle_bool (two ^ 1024) (rounded q) then Inf false
    else Fin (Qred (rounded q)).
Proof. reflexivity. Qed.

Lemma two_pow_52_ulp (e : Z) :
  (two ^ e == inject_Z (2 ^ 52) * two ^ (e - 52))%Q.
Proof.
  rewrite <- two_pow_Z by lia. rewrite <- Qpower_plus by discriminate.
  by replace (52 + (e - 52))%Z with e by lia.
Qed.

Lemma two_pow_53_ulp (e : Z) :
  (two ^ (e + 1) == inject_Z (2 ^ 53) * two ^ (e - 52))%Q.
Proof.
  rewrite <- two_pow_Z by lia. rewrite <- Qpower_plus by discriminate.
  by replace (53 + (e - 52))%Z with (e + 1)%Z by lia.
Qed.

Lemma rounded_nonneg (q : Q) : (0 <= q)%Q → (0 <= rounded q)%Q.
Proof.
  intros Hq. unfold rounded.
  set (ulp := (two ^ (Z.max (ilog2 q) (-1022) - 52))%Q).
  assert (Hulp : (0 < ulp)%Q) by apply ulp_pos.
  apply Qmult_le_0_compat; [|lra].
  assert (Hx : (0 <= q / ulp)%Q).
  { apply Qle_shift_div_l; [done|]. lra. }
  apply Qfloor_resp_le in Hx. change (Qfloor 0) with 0%Z in Hx.
  pose proof (round_even_floor (q / ulp)).
  rewrite <- (Zle_Qle 0). lia.
Qed.

(** A value of a binade is rounded within the binade. *)
Lemma rounded_above (q : Q) :
  (0 < q)%Q → (-1022 <= ilog2 q)%Z → (two ^ ilog2 q <= rounded q)%Q.
Proof.
  intros Hq He. unfold rounded. replace (Z.max (ilog2 q) (-1022)) with (ilog2 q) by lia.
  set (e := ilog2 q). set (ulp := (two ^ (e - 52))%Q).
  assert (Hulp : (0 < ulp)%Q) by apply ulp_pos.
  destruct (ilog2_spec q Hq) as [Hlo _]. fold e in Hlo.
  assert (Hfl : (inject_Z (2 ^ 52) <= q / ulp)%Q).
  { apply Qle_shift_div_l; [done|]. unfold ulp. by rewrite <- two_pow_52_ulp. }
  apply Qfloor_resp_le in Hfl. rewrite Qfloor_Z in Hfl.
  pose proof (round_even_floor (q / ulp)).
  rewrite (two_pow_52_ulp e). fold ulp.
  apply Qmult_le_compat_r; [|lra]. rewrite <- Zle_Qle. lia.
Qed.

Lemma rounded_below (q : Q) :
  (0 < q)%Q → (rounded q <= two ^ (Z.max (ilog2 q) (-1022) + 1))%Q.
Proof.
  intros Hq. unfold rounded.
  set (e := Z.max (ilog2 q) (-1022)). set (ulp := (two ^ (e - 52))%Q).
  assert (Hulp : (0 < ulp)%Q) by apply ulp_pos.
  destruct (ilog2_spec q Hq) as [_ Hhi].
  assert (Hle : (two ^ (ilog2 q + 1) <= two ^ (e + 1))%Q)
    by (apply two_pow_le; lia).
  assert (Hx : (q / ulp <= inject_Z (2 ^ 53))%Q).
  { apply Qle_shift_div_r; [done|]. fold ulp.
    unfold ulp. rewrite <- two_pow_53_ulp. lra. }
  apply round_even_mono in Hx.
  rewrite (round_even_integer (inject_Z (2 ^ 53)) (2 ^ 53)) in Hx by done.
  rewrite (two_pow_53_ulp e). fold ulp.
  apply Qmult_le_compat_r; [|lra]. by rewrite <- Zle_Qle.
Qed.

Lemma rounded_mono (q1 q2 : Q) :
  (0 < q1)%Q → (q1 <= q2)%Q → (rounded q1 <= rounded q2)%Q.
Proof.
  intros H1 H12. assert (H2 : (0 < q2)%Q) by lra.
  pose proof (ilog2_le q1 q2 H1 H12) as Hi.
  destruct (Z.eq_dec (Z.max (ilog2 q1) (-1022)) (Z.max (ilog2 q2) (-1022)))
    as [E|NE].
  - unfold rounded. rewrite E.
    set (ulp := (two ^ (Z.max (ilog2 q2) (-1022) - 52))%Q).
    assert (Hulp : (0 < ulp)%Q) by apply ulp_pos.
    apply Qmult_le_compat_r; [|lra]. rewrite <- Zle_Qle.
    apply round_even_mono. apply Qle_shift_div_l; [done|].
    unfold ulp. by rewrite div_mul_ulp.
  - apply Qle_trans with (two ^ (Z.max (ilog2 q1) (-1022) + 1))%Q;
      [by apply rounded_below|].
    apply Qle_trans with (two ^ ilog2 q2)%Q;
      [apply two_pow_le; lia|apply rounded_above; [done|lia]].
Qed.

Lemma round64_pos_mono (q1 q2 : Q) :
  (0 < q1)%Q → (q1 <= q2)%Q →
  ge (round64_pos q2) (round64_pos q1) = true.
Proof.
  intros H1 H12. pose proof (rounded_mono q1 q2 H1 H12) as Hr.
  rewrite !round64_pos_rounded.
  destruct (Qle_bool (two ^ 1024) (rounded q1)) eqn:O1.
  - apply Qle_bool_iff in O1.
    assert (O2 : Qle_bool (two ^ 1024) (rounded q2) = true)
      by (apply Qle_bool_iff; lra).
    by rewrite O2.
  - destruct (Qle_bool (two ^ 1024) (rounded q2)); [done|]. simpl.
    apply Qle_bool_iff. by rewrite !Qred_correct.
Qed.

Lemma round64_nonneg (q : Q) :
  (0 <= q)%Q →
  round64 q = Inf false ∨ ∃ r, round64 q = Fin r ∧ (0 <= r)%Q.
Proof.
  intros Hq. unfold round64. destruct (q ?= 0)%Q eqn:C.
  - right. by exists 0%Q.
  - apply Qlt_alt in C. lra.
  - rewrite round64_pos_rounded.
    destruct (Qle_bool _ _); [by left|right].
    eexists. split; [done|]. rewrite Qred_correct.
    by apply rounded_nonneg.
Qed.

(** Rounding keeps the order of the numbers it rounds. *)
Lemma round64_mono (q1 q2 : Q) :
  (0 <= q1)%Q → (q1 <= q2)%Q → ge (round64 q2) (round64 q1) = true.
Proof.
  intros H1 H12. unfold round64 at 2. destruct (q1 ?= 0)%Q eqn:C.
  - destruct (round64_nonneg q2) as [->|(r & -> & Hr)]; [lra|done|].
    simpl. by apply Qle_bool_iff.
  - apply Qlt_alt in C. lra.
  - apply Qgt_alt in C. unfold round64.
    assert (C2 : (0 < q2)%Q) by lra.
    rewrite (proj1 (Qgt_alt _ _) C2). by apply round64_pos_mono.
Qed.

Lemma ge_Inf_round64 (q : Q) : ge (Inf false) (round64 q) = true.
Proof.
  unfold round64.
  destruct (q ?= 0)%Q; [done| |]; rewrite round64_pos_rounded;
    by destruct (Qle_bool _ _).
Qed.

(** The amount [determineTier] computes keeps the order of the numbers
    read. *)
Lemma amount_mono (v1 v2 f : Q) :
  (0 <= v1)%Q → (v1 <= v2)%Q → (0 < f)%Q →
  ge (mul (round64 v2) (Fin f)) (mul (round64 v1) (Fin f)) = true.
Proof.
  intros H1 H12 Hf. pose proof (round64_mono v1 v2 H1 H12) as Hm.
  destruct (round64_nonneg v1 H1) as [E1|(r1 & E1 & Hr1)];
    destruct (round64_nonneg v2) as [E2|(r2 & E2 & Hr2)]; try lra;
    rewrite E1, E2 in *; simpl in Hm; try done.
  - simpl. by rewrite (proj1 (Qgt_alt _ _) Hf).
  - cbn [mul]. rewrite (proj1 (Qgt_alt _ _) Hf). apply ge_Inf_round64.
  - cbn [mul]. apply Qle_bool_iff in Hm. apply round64_mono; nra.
Qed.

Lemma ge_trans (x y : number) (T : Q) :
  ge y x = true → ge x (Fin T) = true → ge y (Fin T) = true.
Proof.
  destruct x as [|[]|p], y as [|[]|q]; simpl; try done.
  intros H1 H2. apply Qle_bool_iff in H1, H2. apply Qle_bool_iff. lra.
Qed.

Lemma tier_of_number_mono (x y : number) :
  ge y x = true → rank (tier_of_number x) <= rank (tier_of_number y).
Proof.
  intros H. unfold tier_of_number.
  destruct (ge x (Fin 10000)) eqn:X1;
    [rewrite (ge_trans x y _ H X1); done|].
  destruct (ge x (Fin 1000)) eqn:X2.
  { rewrite (ge_trans x y _ H X2). destruct (ge y (Fin 10000)); simpl; lia. }
  destruct (ge x (Fin 100)) eqn:X3.
  { rewrite (ge_trans x y _ H X3).
    destruct (ge y (Fin 10000)), (ge y (Fin 1000)); simpl; lia. }
  simpl. lia.
Qed.

(** The amount computed reaches every binary64 threshold that the exact
    product reaches, when the threshold divided by the factor rounds to a
    value whose product with the factor reaches it. *)
Lemma amount_lower (v T f c : Q) :
  (0 < f)%Q → (0 < T)%Q → representable T →
  round64 (T / f) = Fin c → (0 < c)%Q → (T <= c * f)%Q →
  (T <= v * f)%Q →
  ge (mul (round64 v) (Fin f)) (Fin T) = true.
Proof.
  intros Hf HT Hrep Hc Hc0 HcT Hv.
  assert (Hdiv : (T / f <= v)%Q) by (by apply Qle_shift_div_r).
  assert (H0 : (0 <= T / f)%Q).
  { apply Qle_shift_div_l; [done|]. lra. }
  pose proof (round64_mono _ _ H0 Hdiv) as Hm. rewrite Hc in Hm.
  by apply (mul_lower _ c).
Qed.

End Monotone.

Section Decimals.

Lemma split_point_join (a : string) :
  a = whole_part a
      +:+ match (split_point a).2 with
          | Some f => "." +:+ f
          | None => ""
          end.
Proof.
  unfold whole_part. induction a as [|c a IH]; [done|]. simpl.
  destruct (Ascii.eqb c ".") eqn:E.
  - apply Ascii.eqb_eq in E. by subst c.
  - destruct (split_point a) as [w f]. simpl in *.
    by rewrite append_cons, <- IH.
Qed.

Lemma digits_amount_chars (s : string) :
  all_chars is_digit s = true → all_chars is_digit_or_comma s = true.
Proof.
  induction s as [|c s IH]; simpl; [done|]. intros H.
  apply andb_true_iff in H as [Hc Hs]. unfold is_digit_or_comma at 1.
  by rewrite Hc, IH.
Qed.

Lemma any_char_app (f : ascii → bool) (s t : string) :
  any_char f (s +:+ t) = any_char f s || any_char f t.
Proof.
  induction s as [|c s IH]; [done|]. rewrite append_cons. simpl.
  by rewrite IH, orb_assoc.
Qed.

Lemma any_digit_kept (a : string) :
  any_char is_digit (keep_digits a) = any_char is_digit a.
Proof.
  unfold keep_digits. induction a as [|c a IH]; simpl; [done|].
  destruct (is_digit c) eqn:E; simpl; [by rewrite E|done].
Qed.

Lemma any_char_nonempty (f : ascii → bool) (s : string) :
  any_char f s = true → s ≠ "".
Proof. by destruct s. Qed.

(** A number may start with a digit or with its point. *)
Lemma number_start (c : ascii) (r : string) :
  is_digit c = true ∨ c = "."%char →
  trim_start (String c r) = String c r ∧
  take_sign (String c r) = (false, String c r) ∧
  starts_with (String c r) "Infinity" = false.
Proof.
  intros [Hc| ->]; [|done].
  destruct (digit_facts c Hc) as (Hsp & Hplus & Hminus & _ & _ & HI & _).
  simpl. by rewrite Hsp, Hplus, Hminus, HI.
Qed.

(** [parseFloat] of digits, a point and digits, alone or before an [M]. *)
Lemma parseFloat_point (ds fp tail : string) :
  all_chars is_digit ds = true → all_chars is_digit fp = true →
  ds +:+ fp ≠ "" → tail = "" ∨ tail = "M" →
  parseFloat (ds +:+ "." +:+ fp +:+ tail)
  = round64 (inject_Z (digits_value 0 (ds +:+ fp))
             * inject_Z 10 ^ (0 - Z.of_nat (String.length fp))).
Proof.
  intros Hds Hfp Hne Htail.
  assert (Hstart : ∃ c r, ds +:+ "." +:+ fp +:+ tail = String c r ∧
                          (is_digit c = true ∨ c = "."%char)).
  { destruct ds as [|c ds'].
    - exists "."%char, (fp +:+ tail). by split; [|right].
    - exists c, (ds' +:+ "." +:+ fp +:+ tail). split; [done|left].
      simpl in Hds. by apply andb_true_iff in Hds as [? _]. }
  destruct Hstart as (c & r & E & Hc).
  destruct (number_start c r Hc) as (Htrim & Hsign & Hinf).
  unfold parseFloat. rewrite E, Htrim, Hsign, Hinf, <- E.
  assert (Htl : span_digits tail = ("", tail))
    by (by destruct Htail as [->| ->]).
  rewrite (span_digits_all ds ("." +:+ fp +:+ tail)) by done.
  change ("." +:+ fp +:+ tail) with (String "." (fp +:+ tail)).
  cbv iota beta. rewrite Ascii.eqb_refl, (span_digits_all fp tail) by done.
  assert (Hex : exponent_part tail = 0%Z) by (by destruct Htail as [->| ->]).
  rewrite Hex. by destruct (ds +:+ fp).
Qed.

Lemma decimal_value_whole (a : string) :
  (split_point a).2 = None →
  decimal_value a = inject_Z (amount_value a).
Proof.
  intros Hf. pose proof (split_point_join a) as Hw.
  rewrite Hf, append_empty in Hw.
  unfold decimal_value, amount_value, fraction.
  rewrite Hf, <- Hw, append_empty. simpl String.length. simpl Z.sub.
  change (inject_Z 10 ^ 0)%Q with 1%Q.
  unfold Qmult. simpl Qnum. simpl Qden. by rewrite Z.mul_1_r.
Qed.

Lemma whole_amount_decimal (a : string) :
  is_amount a = true → is_decimal a = true ∧ (split_point a).2 = None.
Proof.
  intros Ha. apply andb_true_iff in Ha as [Hall Hany].
  assert (Hsp : split_point a = (a, None)).
  { clear Hany. induction a as [|c a IH]; [done|]. simpl in *.
    apply andb_true_iff in Hall as [Hc Ha].
    destruct (comma_facts c Hc) as [_ Hd].
    assert (Hp : Ascii.eqb c "." = false).
    { destruct (Ascii.eqb c ".") eqn:E; [|done].
      apply Ascii.eqb_eq in E. by subst c. }
    by rewrite Hp, (IH Ha). }
  unfold is_decimal, whole_part, fraction. rewrite Hsp. simpl.
  by rewrite Hall, Hany.
Qed.

(** What [determineTier] computes for a decimal amount: the amount rounded
    to binary64, times the factor of the suffix, rounded again. *)
Lemma decimal_amount (a : string) (sfx : Suffix) :
  is_decimal a = true →
  amount (budget_text a sfx)
  = mul (round64 (decimal_value a)) (Fin (inject_Z (factor sfx))).
Proof.
  intros Ha. apply andb_true_iff in Ha as [Ha Hany].
  apply andb_true_iff in Ha as [Hw Hf].
  pose proof (split_point_join a) as Hjoin.
  unfold decimal_value, fraction in *.
  remember (whole_part a) as w eqn:Ew. clear Ew.
  remember (split_point a).2 as fr eqn:Efr. clear Efr.
  destruct (strip_amount _ Hw) as [Hstrip HM].
  assert (Htail : remove_chars dollar_comma_K (suffix_text sfx) = ""
                  ∨ remove_chars dollar_comma_K (suffix_text sfx) = "M")
    by (destruct sfx; [by left|by right]).
  assert (Hinc : ∀ b, includes b "M" = false →
            (if includes ("$" +:+ b +:+ suffix_text sfx) "M"
             then Fin 1000 else Fin 1) = Fin (inject_Z (factor sfx))).
  { intros b Hb. rewrite append_cons, append_nil.
    change (includes (String "$" (b +:+ suffix_text sfx)) "M")
      with (includes (b +:+ suffix_text sfx) "M").
    rewrite includes_M_app, Hb. by destruct sfx. }
  unfold amount, budget_text. f_equal.
  - rewrite append_cons, append_nil. simpl remove_chars.
    rewrite remove_chars_app, Hjoin.
    destruct fr as [fp|]; simpl default in *.
    + destruct (strip_amount _ (digits_amount_chars _ Hf)) as [Hstripf HMf].
      rewrite (keep_digits_id _ Hf) in Hstripf.
      rewrite !remove_chars_app, Hstrip, Hstripf.
      change (remove_chars dollar_comma_K ".") with ".".
      rewrite !append_assoc.
      apply parseFloat_point; [apply keep_digits_all|done| |done].
      apply (any_char_nonempty is_digit).
      rewrite any_char_app, any_digit_kept.
      by rewrite Hjoin, !any_char_app in Hany.
    + rewrite append_empty in Hjoin |- *. subst a.
      rewrite Hstrip, append_empty.
      rewrite (parseFloat_digits (keep_digits w));
        [|apply keep_digits_all| |done].
      * simpl String.length. simpl Z.sub.
        change (inject_Z 10 ^ 0)%Q with 1%Q.
        unfold Qmult. simpl Qnum. simpl Qden. by rewrite Z.mul_1_r.
      * apply (any_char_nonempty is_digit). by rewrite any_digit_kept.
  - apply Hinc. rewrite Hjoin, includes_M_app, HM. simpl orb.
    destruct fr as [fp|]; [|done]. simpl default in Hf.
    by destruct (strip_amount _ (digits_amount_chars _ Hf)) as [_ HMf].
Qed.

Lemma decimal_value_nonneg (a : string) :
  is_decimal a = true → (0 <= decimal_value a)%Q.
Proof.
  intros Ha. apply andb_true_iff in Ha as [Ha _].
  apply andb_true_iff in Ha as [_ Hf]. unfold decimal_value.
  apply Qmult_le_0_compat.
  - rewrite <- (Zle_Qle 0). apply digits_value_bounds; [|done].
    clear -Hf. pose proof (keep_digits_all (whole_part a)) as Hk.
    induction (keep_digits (whole_part a)) as [|c s IH]; [done|].
    rewrite append_cons. simpl in *.
    apply andb_true_iff in Hk as [-> Hs]. by apply IH.
  - apply Qpower_pos. done.
Qed.

Lemma decimal_tier (a : string) (sfx : Suffix) :
  is_decimal a = true →
  determineTier (Some (budget_text a sfx))
  = tier_of_number
      (mul (round64 (decimal_value a)) (Fin (inject_Z (factor sfx)))).
Proof.
  intros Ha. rewrite determineTier_amount by done.
  by rewrite (decimal_amount a sfx Ha).
Qed.

(** The amount computed reaches every step that the exact budget
    reaches. *)
Lemma amount_reaches (v : Q) (sfx : Suffix) (T : Q) :
  T = 100%Q ∨ T = 1000%Q ∨ T = 10000%Q →
  (T <= v * inject_Z (factor sfx))%Q →
  ge (mul (round64 v) (Fin (inject_Z (factor sfx)))) (Fin T) = true.
Proof.
  intros HT Hv.
  assert (Hrep : representable T).
  { destruct HT as [->|[->| ->]];
      [apply (representable_integer 100)|apply (representable_integer 1000)
      |apply (representable_integer 10000)]; done. }
  destruct sfx.
  - apply (amount_lower v T 1 T); try done.
    + by destruct HT as [->|[->| ->]].
    + by destruct HT as [->|[->| ->]]; vm_compute.
    + by destruct HT as [->|[->| ->]].
    + lra.
  - destruct HT as [->|[->| ->]].
    + apply (amount_lower v _ 1000 (3602879701896397 # 36028797018963968));
        try done.
    + apply (amount_lower v _ 1000 1); try done.
    + apply (amount_lower v _ 1000 10); try done.
Qed.

Lemma tier_not_below (v : Q) (sfx : Suffix) :
  rank (tier_at_Q (v * inject_Z (factor sfx)))
  <= rank (tier_of_number
             (mul (round64 v) (Fin (inject_Z (factor sfx))))).
Proof.
  pose proof (amount_reaches v sfx) as Hreach.
  unfold tier_at_Q, tier_of_number.
  set (x := mul (round64 v) (Fin (inject_Z (factor sfx)))) in *.
  destruct (Qle_bool 10000 _) eqn:T1.
  { apply Qle_bool_iff in T1. rewrite (Hreach 10000%Q) by auto. done. }
  destruct (Qle_bool 1000 _) eqn:T2.
  { apply Qle_bool_iff in T2. rewrite (Hreach 1000%Q) by auto.
    destruct (ge x (Fin 10000)); simpl; lia. }
  destruct (Qle_bool 100 _) eqn:T3.
  { apply Qle_bool_iff in T3. rewrite (Hreach 100%Q) by auto.
    destruct (ge x (Fin 10000)), (ge x (Fin 1000)); simpl; lia. }
  simpl. lia.
Qed.

End Decimals.

Section Margin.

Lemma round_even_upper (x : Q) : (inject_Z (round_even x) <= x + (1 # 2))%Q.
Proof.
  pose proof (Qfloor_le x) as Hfl. unfold round_even.
  destruct (x - inject_Z (Qfloor x) ?= 1 # 2)%Q eqn:C.
  - apply (proj2 (Qeq_alt _ _)) in C.
    destruct (Z.even (Qfloor x)); [lra|]. rewrite inject_Z_plus.
    change (inject_Z 1) with 1%Q. lra.
  - lra.
  - apply (proj2 (Qgt_alt _ _)) in C. rewrite inject_Z_plus.
    change (inject_Z 1) with 1%Q. lra.
Qed.

(** In the normal range rounding adds half a unit of the 53rd bit at
    most. *)
Lemma rounded_upper (q : Q) :
  (0 < q)%Q → (-1022 <= ilog2 q)%Z →
  (rounded q <= q * (1 + two ^ (-53)))%Q.
Proof.
  intros Hq He. unfold rounded.
  replace (Z.max (ilog2 q) (-1022)) with (ilog2 q) by lia.
  set (e := ilog2 q). set (ulp := (two ^ (e - 52))%Q).
  assert (Hulp : (0 < ulp)%Q) by apply two_pos_pow.
  destruct (ilog2_spec q Hq) as [Hlo _]. fold e in Hlo.
  pose proof (round_even_upper (q / ulp)) as Hr.
  assert (Hhalf : (ulp * (1 # 2) == two ^ e * two ^ (-53))%Q).
  { unfold ulp. change (1 # 2)%Q with (two ^ (-1))%Q.
    rewrite <- !Qpower_plus by discriminate.
    by replace (e - 52 + -1)%Z with (e + -53)%Z by lia. }
  assert (Hmul : (inject_Z (round_even (q / ulp)) * ulp
                  <= (q / ulp + (1 # 2)) * ulp)%Q)
    by (apply Qmult_le_compat_r; lra).
  assert (Hexp : ((q / ulp + (1 # 2)) * ulp == q + ulp * (1 # 2))%Q)
    by (field; lra).
  assert (Heps : (0 < two ^ (-53))%Q) by apply two_pos_pow.
  rewrite Hexp, Hhalf in Hmul. nra.
Qed.

Lemma rounded_tiny (q : Q) :
  (0 < q)%Q → (ilog2 q < -1022)%Z → (rounded q <= two ^ (-1021))%Q.
Proof.
  intros Hq He. pose proof (rounded_below q Hq) as H.
  by replace (Z.max (ilog2 q) (-1022) + 1)%Z with (-1021)%Z in H by lia.
Qed.

Lemma round64_finite_upper (q r : Q) :
  (0 <= q)%Q → round64 q = Fin r → (two ^ (-1021) < r)%Q →
  (r <= q * (1 + two ^ (-53)))%Q.
Proof.
  intros Hq E Hr. pose proof (two_pos_pow (-1021)) as Hd.
  unfold round64 in E. destruct (q ?= 0)%Q eqn:C.
  - injection E as <-. lra.
  - apply (proj2 (Qlt_alt _ _)) in C. lra.
  - apply (proj2 (Qgt_alt _ _)) in C. rewrite round64_pos_rounded in E.
    destruct (Qle_bool _ _); [done|]. injection E as <-.
    rewrite Qred_correct in *.
    destruct (Z_lt_le_dec (ilog2 q) (-1022)) as [Hsub|Hnorm].
    + pose proof (rounded_tiny q C Hsub). lra.
    + by apply rounded_upper.
Qed.

Lemma round64_overflow_upper (q : Q) :
  (0 <= q)%Q → round64 q = Inf false →
  (two ^ 1024 <= q * (1 + two ^ (-53)))%Q.
Proof.
  intros Hq E. unfold round64 in E. destruct (q ?= 0)%Q eqn:C.
  - done.
  - apply (proj2 (Qlt_alt _ _)) in C. lra.
  - apply (proj2 (Qgt_alt _ _)) in C. rewrite round64_pos_rounded in E.
    destruct (Qle_bool _ _) eqn:O; [|done]. apply Qle_bool_iff in O.
    destruct (Z_lt_le_dec (ilog2 q) (-1022)) as [Hsub|Hnorm].
    + pose proof (rounded_tiny q C Hsub) as Ht.
      assert (Hlt : (two ^ (-1021) < two ^ 1024)%Q) by (by vm_compute).
      lra.
    + pose proof (rounded_upper q C Hnorm). lra.
Qed.

(** The amount computed reaches a step only if the budget raised by the
    two roundings reaches it. *)
Lemma amount_upper (v f T : Q) :
  (0 <= v)%Q → (1 <= f)%Q → (f <= 1000)%Q → (1 <= T)%Q → (T <= 10000)%Q →
  ge (mul (round64 v) (Fin f)) (Fin T) = true →
  (T <= twice_rounded (v * f))%Q.
Proof.
  intros Hv Hf1 Hf2 HT1 HT2 Hge. unfold twice_rounded.
  assert (Heps : (0 < two ^ (-53))%Q) by apply two_pos_pow.
  assert (Heps1 : (two ^ (-53) <= 1)%Q) by (by vm_compute).
  assert (Hd : (two ^ (-1021) * 4000 < 1)%Q) by (by vm_compute).
  assert (Hbig : (10000 <= two ^ 1024)%Q) by (by vm_compute).
  pose proof (two_pos_pow (-1021)) as Hd0.
  set (E := (1 + two ^ (-53))%Q) in *.
  set (d := (two ^ (-1021))%Q) in *.
  set (B := (two ^ 1024)%Q) in *.
  assert (HE : (1 <= E)%Q) by (unfold E; lra).
  assert (HE2 : (E <= 2)%Q) by (unfold E; lra).
  destruct (round64_nonneg v Hv) as [Ev|(r & Ev & Hr)].
  - pose proof (round64_overflow_upper v Hv Ev) as Hov. fold E B in Hov.
    assert (H1 : (B * 1 <= v * E * f)%Q) by nra.
    assert (H2 : (v * E * f * 1 <= v * E * f * E)%Q) by nra.
    nra.
  - rewrite Ev in Hge. cbn [mul] in Hge.
    assert (Hrf : (0 <= r * f)%Q) by nra.
    assert (Hsmall : (r <= d)%Q → (r * f * E < 1)%Q).
    { intros Hle. assert (H1 : (r * f <= d * 1000)%Q) by nra.
      assert (H2 : (r * f * E <= d * 1000 * 2)%Q) by nra. lra. }
    assert (Hchain : (r <= v * E)%Q → (r * f * E <= v * f * E * E)%Q).
    { intros Hle. assert (H1 : (r * f <= v * E * f)%Q) by nra.
      assert (H2 : (r * f * E <= v * E * f * E)%Q) by nra. lra. }
    destruct (round64_nonneg (r * f) Hrf) as [Em|(r2 & Em & Hr2)].
    + pose proof (round64_overflow_upper _ Hrf Em) as Hov. fold E B in Hov.
      destruct (Qlt_le_dec d r) as [Hlt|Hle];
        [|specialize (Hsmall Hle); lra].
      pose proof (round64_finite_upper v r Hv Ev Hlt) as Hup. fold E in Hup.
      specialize (Hchain Hup). lra.
    + rewrite Em in Hge. simpl in Hge. apply Qle_bool_iff in Hge.
      assert (Hlt2 : (d < r2)%Q) by lra.
      pose proof (round64_finite_upper _ r2 Hrf Em Hlt2) as Hup2.
      fold E in Hup2.
      destruct (Qlt_le_dec d r) as [Hlt|Hle];
        [|specialize (Hsmall Hle); lra].
      pose proof (round64_finite_upper v r Hv Ev Hlt) as Hup. fold E in Hup.
      specialize (Hchain Hup). lra.
Qed.

Lemma tier_not_above (v : Q) (sfx : Suffix) :
  (0 <= v)%Q →
  rank (tier_of_number (mul (round64 v) (Fin (inject_Z (factor sfx)))))
  <= rank (tier_at_Q (twice_rounded (v * inject_Z (factor sfx)))).
Proof.
  intros Hv.
  assert (Hup : ∀ T : Q, (1 <= T)%Q → (T <= 10000)%Q →
            ge (mul (round64 v) (Fin (inject_Z (factor sfx)))) (Fin T) = true →
            Qle_bool T (twice_rounded (v * inject_Z (factor sfx))) = true).
  { intros T HT1 HT2 Hge. apply Qle_bool_iff.
    apply amount_upper; try done; by destruct sfx. }
  unfold tier_at_Q, tier_of_number.
  set (x := mul (round64 v) (Fin (inject_Z (factor sfx)))) in *.
  set (k := twice_rounded (v * inject_Z (factor sfx))) in *.
  destruct (ge x (Fin 10000)) eqn:X1.
  { by rewrite (Hup 10000%Q). }
  destruct (ge x (Fin 1000)) eqn:X2.
  { rewrite (Hup 1000%Q) by done. destruct (Qle_bool 10000 k); simpl; lia. }
  destruct (ge x (Fin 100)) eqn:X3.
  { rewrite (Hup 100%Q) by done.
    destruct (Qle_bool 10000 k), (Qle_bool 1000 k); simpl; lia. }
  simpl. lia.
Qed.

End Margin.

Section DecimalTiers.

(** For a whole number of thousands the two readings of the steps agree. *)
Lemma tier_at_Q_whole (n f : Z) :
  tier_at_Q (inject_Z n * inject_Z f) = tier_at (n * f).
Proof.
  unfold tier_at_Q, tier_at. rewrite <- inject_Z_mult.
  change 10000%Q with (inject_Z 10000). change 1000%Q with (inject_Z 1000).
  change 100%Q with (inject_Z 100). by rewrite !Qle_bool_inject.
Qed.

End DecimalTiers.

(** C5, as the claim has it: the tier of every [$<amount>K] is the one of
    the budget's size, stepping up exactly at $100K.  The amount
    99.99999999999999999 is below 100, so that its tier by size is tier4;
    [parseFloat] reads it as the binary64 number 100, and [determineTier]
    answers tier3. *)
Lemma C5_amount_rounded_onto_step :
  is_decimal "99.99999999999999999" = true ∧
  (decimal_value "99.99999999999999999" * inject_Z (factor K) < 100)%Q ∧
  tier_at_Q (decimal_value "99.99999999999999999" * inject_Z (factor K))
  = tier4 ∧
  budget_text "99.99999999999999999" K = "$99.99999999999999999K" ∧
  determineTier (Some "$99.99999999999999999K") = tier3.
Proof. by vm_compute. Qed.

(** C5, amended.  For budget strings [$<amount>K] and [$<amount>M] whose
    amount is a decimal number: a larger amount with the same suffix never
    gives a lower tier; the tier is never below the one of the budget's
    size, with the steps at $100K, $1M and $10M, and never above the one
    of the budget raised by the two binary64 roundings of the computation;
    and for an amount without a fraction it is exactly the tier of the
    budget's size. *)
Theorem C5_tier_of_decimal_amounts (a1 a2 : string) (sfx : Suffix) :
  is_decimal a1 = true → is_decimal a2 = true →
  (decimal_value a1 <= decimal_value a2)%Q →
  rank (determineTier (Some (budget_text a1 sfx)))
  <= rank (determineTier (Some (budget_text a2 sfx))) ∧
  rank (tier_at_Q (decimal_value a1 * inject_Z (factor sfx)))
  <= rank (determineTier (Some (budget_text a1 sfx))) ∧
  rank (determineTier (Some (budget_text a1 sfx)))
  <= rank (tier_at_Q (twice_rounded
                        (decimal_value a1 * inject_Z (factor sfx)))) ∧
  (is_amount a1 = true →
   determineTier (Some (budget_text a1 sfx))
   = tier_at_Q (decimal_value a1 * inject_Z (factor sfx))).
Proof.
  intros H1 H2 Hle. pose proof (decimal_value_nonneg a1 H1) as Hv.
  rewrite !decimal_tier by done. repeat split.
  - apply tier_of_number_mono, amount_mono; [done..|by destruct sfx].
  - apply tier_not_below.
  - by apply tier_not_above.
  - intros Ha. destruct (whole_amount_decimal a1 Ha) as [_ Hnone].
    rewrite <- decimal_tier by done.
    rewrite (budget_text_tier a1 sfx Ha), (decimal_value_whole a1 Hnone).
    by rewrite tier_at_Q_whole.
Qed.

Lemma C5_tier_of_decimal_amounts_witness :
  is_decimal "1" = true ∧ is_decimal "1.5" = true ∧
  (decimal_value "1" <= decimal_value "1.5")%Q ∧ is_amount "1" = true ∧
  rank (determineTier (Some (budget_text "1" M)))
  <= rank (determineTier (Some (budget_text "1.5" M))) ∧
  determineTier (Some (budget_text "1" M))
  = tier_at_Q (decimal_value "1" * inject_Z (factor M)).
Proof.
  assert (H : (decimal_value "1" <= decimal_value "1.5")%Q)
    by (vm_compute; discriminate).
  destruct (C5_tier_of_decimal_amounts "1" "1.5" M eq_refl eq_refl H)
    as (Hmono & _ & _ & Hexact).
  exact (conj eq_refl (conj eq_refl (conj H (conj eq_refl
           (conj Hmono (Hexact eq_refl)))))).
Defined.
